(** * Shell Whiz: the interaction loop of [shell_whiz/cli.py]

    A shallow embedding of [shell_whiz_ask], [run_ai_assistant], [main] and
    [run].  The program talks to a language-model backend, to the terminal
    and to the user; here every such effect is an [event] appended to a
    trace, and every answer of the outside world (the command line as the
    argument parser leaves it, backend replies, user choices and interrupts,
    whether [rich] accepts the markup of a warning) is read from a script.
    Exceptions are explicit results; what [asyncio.run] does with a task
    that is still scheduled when [main] ends is part of [run]. *)

From Stdlib Require Import String Ascii List ZArith Bool Lia.
Import ListNotations.
Local Open Scope string_scope.
Local Open Scope list_scope.
Local Open Scope Z_scope.

(** ** Python strings

    A [string] is read as a sequence of code points below U+0100. *)

Module PyStr.

(** [str.isspace] on one character: the characters [str.strip()] removes. *)
Definition is_space (c : ascii) : bool :=
  let n := nat_of_ascii c in
  ((9 <=? n) && (n <=? 13))%nat || ((28 <=? n) && (n <=? 32))%nat
  || (n =? 133)%nat || (n =? 160)%nat.

(** The line boundaries of [str.splitlines()]. *)
Definition is_linebreak (c : ascii) : bool :=
  let n := nat_of_ascii c in
  ((10 <=? n) && (n <=? 13))%nat || ((28 <=? n) && (n <=? 30))%nat
  || (n =? 133)%nat.

Definition CR : ascii := ascii_of_nat 13.
Definition LF : ascii := ascii_of_nat 10.
Definition nl : string := String LF "".

Fixpoint lstrip (s : string) : string :=
  match s with
  | "" => ""
  | String c s' => if is_space c then lstrip s' else s
  end.

Fixpoint rstrip (s : string) : string :=
  match s with
  | "" => ""
  | String c s' =>
      match rstrip s' with
      | "" => if is_space c then "" else String c ""
      | r => String c r
      end
  end.

(** [s.strip()] *)
Definition strip (s : string) : string := rstrip (lstrip s).

(** [sep.join(words)] *)
Definition join (sep : string) (words : list string) : string :=
  String.concat sep words.

(** [s.splitlines()]: [cur] is the line read so far; a carriage return
    followed by a line feed is one boundary; no empty last line. *)
Fixpoint splitlines_from (cur s : string) : list string :=
  match s with
  | "" => if (cur =? "")%string then [] else [cur]
  | String c s' =>
      if is_linebreak c then
        match s' with
        | String c' s'' =>
            if Ascii.eqb c CR && Ascii.eqb c' LF
            then cur :: splitlines_from "" s''
            else cur :: splitlines_from "" s'
        | "" => [cur]
        end
      else splitlines_from (cur ++ String c "")%string s'
  end.

Definition splitlines (s : string) : list string := splitlines_from "" s.

End PyStr.

(** ** Exceptions *)

(** The classes of [openai.error]; every one derives directly from
    [OpenAIError]. *)
Inductive openai_error : Type :=
  | OpenAIError | APIError | TryAgain | Timeout | APIConnectionError
  | InvalidRequestError | AuthenticationError | PermissionError
  | RateLimitError | ServiceUnavailableError | InvalidAPIType
  | SignatureVerificationError.

Definition openai_error_eqb (a b : openai_error) : bool :=
  match a, b with
  | OpenAIError, OpenAIError | APIError, APIError | TryAgain, TryAgain
  | Timeout, Timeout | APIConnectionError, APIConnectionError
  | InvalidRequestError, InvalidRequestError
  | AuthenticationError, AuthenticationError
  | PermissionError, PermissionError | RateLimitError, RateLimitError
  | ServiceUnavailableError, ServiceUnavailableError
  | InvalidAPIType, InvalidAPIType
  | SignatureVerificationError, SignatureVerificationError => true
  | _, _ => false
  end.

(** [issubclass c d] inside [openai.error]. *)
Definition issubclass (c d : openai_error) : bool :=
  openai_error_eqb c d || openai_error_eqb d OpenAIError.

(** What the program can raise.  The three classes of
    [shell_whiz.exceptions] are unrelated to each other and to
    [openai.error]; [SystemExit] carries the argument of [sys.exit];
    [TypeError] is what subscripting [None] raises, [MarkupError] what
    [rich] raises on markup it cannot read. *)
Inductive exn : Type :=
  | ShellWhizTranslationError
  | ShellWhizWarningError
  | ShellWhizEditError
  | OpenAI (c : openai_error)
  | KeyboardInterrupt
  | SystemExit (code : option Z)
  | UnboundLocalError (var : string)
  | TypeError
  | MarkupError.

(** Whether an exception derives from [Exception]; [KeyboardInterrupt] and
    [SystemExit] derive from [BaseException] only. *)
Definition is_Exception (e : exn) : bool :=
  match e with
  | KeyboardInterrupt | SystemExit _ => false
  | _ => true
  end.

Inductive res (A : Type) : Type :=
  | Ret (a : A)
  | Raise (e : exn).
Arguments Ret {A} a.
Arguments Raise {A} e.

(** ** Events *)

(** The four calls into [shell_whiz.openai], with their arguments. *)
Inductive backend_call : Type :=
  | Translate (prompt : string)
  | Edit (shell_command edit_prompt : string)
  | Danger (shell_command : string)
  | Explain (shell_command : string).

(** Which part of the program wrote a piece of output. *)
Inductive printer : Type :=
  | ByCommand        (* print_command *)
  | ByWarning        (* the warning of line 89 *)
  | ByExplanation    (* print_explanation *)
  | ByError          (* an error message before sys.exit *)
  | ByNotice.        (* the interrupt notice of run *)

Inductive event : Type :=
  | EPrint (who : printer) (text : string)
  | EMarkdown (who : printer) (text : string)
  | ECreateTask (c : backend_call)
  | ERequest (c : backend_call)
  | EResponse (c : backend_call)
  | ESpinnerStart (text color : string)
  | ESpinnerStop
  | EPromptAction (answer : string)
  | EPromptText (message default answer : string)
  | ESubprocess (shell_command : string)
  | EConfig
  | EUpdateConfig
  | EPromptCancelled
  | ETextInterrupted (message : string)
  | ETaskCancelled (c : backend_call)
  | EParserMessage.

(** ** The monad: a trace of events and a value or an exception *)

Definition M (A : Type) : Type := list event * res A.

Definition ret {A} (a : A) : M A := ([], Ret a).
Definition raise {A} (e : exn) : M A := ([], Raise e).
Definition emit (e : event) : M unit := ([e], Ret tt).

Definition bind {A B} (m : M A) (k : A -> M B) : M B :=
  match snd m with
  | Ret a => (fst m ++ fst (k a), snd (k a))
  | Raise e => (fst m, Raise e)
  end.

Notation "x <- m ;; k" := (bind m (fun x => k))
  (at level 61, m at next level, right associativity).
Notation "m ;;; k" := (bind m (fun _ => k))
  (at level 61, right associativity).

(** [try: m except ...]: [handler e] is [Some h] when a clause matches [e]. *)
Definition try_except {A} (m : M A) (handler : exn -> option (M A)) : M A :=
  match snd m with
  | Ret a => m
  | Raise e =>
      match handler e with
      | Some h => (fst m ++ fst h, snd h)
      | None => m
      end
  end.

(** [with ctx: m], where leaving the block runs [cleanup]. *)
Definition finally {A} (m : M A) (cleanup : list event) : M A :=
  (fst m ++ cleanup, snd m).

Definition trace {A} (m : M A) : list event := fst m.
Definition result {A} (m : M A) : res A := snd m.

Fixpoint for_each {A} (l : list A) (body : A -> M unit) : M unit :=
  match l with
  | [] => ret tt
  | a :: l' => body a ;;; for_each l' body
  end.

(** A call into [shell_whiz.openai]: the request goes out, the script's
    reply comes back, as a value or as an exception. *)
Definition call {A} (c : backend_call) (reply : res A) : M A :=
  ([ERequest c; EResponse c], reply).

(** Reading a local variable that may not have been assigned yet. *)
Definition read_local {A} (name : string) (v : option A) : M A :=
  match v with
  | Some a => ret a
  | None => raise (UnboundLocalError name)
  end.

(** ** asyncio

    [asyncio.create_task(coro)] wraps the coroutine object in a task and
    schedules it; the body of the coroutine has not started then.  The event
    loop runs a scheduled task only while the current task is suspended at an
    [await]; a plain call keeps control until it returns.  A scheduled task
    carries the reply its request will get. *)
Inductive task : Type :=
  | Scheduled (c : backend_call) (reply : res string).

Definition create_task (c : backend_call) (reply : res string) : M task :=
  emit (ECreateTask c) ;;; ret (Scheduled c reply).

(** [await t]: the current task is suspended, the event loop runs [t]. *)
Definition await_task (t : task) : M string :=
  match t with
  | Scheduled c reply => call c reply
  end.

Definition backend_call_eqb (c d : backend_call) : bool :=
  match c, d with
  | Translate p, Translate q => (p =? q)%string
  | Edit c1 e1, Edit c2 e2 => (c1 =? c2)%string && (e1 =? e2)%string
  | Danger c1, Danger c2 => (c1 =? c2)%string
  | Explain c1, Explain c2 => (c1 =? c2)%string
  | _, _ => false
  end.

(** The task that is created and has not started, after the trace [t],
    when [p] was so before it: a task is scheduled by [create_task] and starts
    when its request goes out. *)
Fixpoint scheduled_task (p : option backend_call) (t : list event)
  : option backend_call :=
  match t with
  | [] => p
  | ECreateTask c :: t' => scheduled_task (Some c) t'
  | ERequest c :: t' =>
      match p with
      | Some d => if backend_call_eqb c d then scheduled_task None t'
                  else scheduled_task p t'
      | None => scheduled_task None t'
      end
  | _ :: t' => scheduled_task p t'
  end.

(** ** Constants of [shell_whiz.constants] *)

Record constants : Type := {
  INV_CLI_ARGS_EXIT_CODE : Z;
  OPENAI_ERROR_EXIT_CODE : Z;
  SW_ERROR : string;
  SW_ERROR_EXIT_CODE : Z;
  SW_WAIT_MSG : string;
  SW_WAIT_MSG_COLOR : string
}.

(** ** The script: what the outside world answers *)

(** One pass through the loop body: the reply to each backend call the body
    can make and the user's answers to the two prompts.  [markup_error]
    tells whether [rich] rejects the markup of this pass's warning (it
    depends on the classifier's text, which line 89 puts inside markup);
    [action_cancelled] whether the user interrupts the action prompt
    ([inquirer.prompt] then returns [None]); [text_interrupted] whether the
    user interrupts the text prompt ([inquirer.text] then raises
    [KeyboardInterrupt]). *)
Record round : Type := {
  edit_reply : res string;
  danger_reply : res (bool * string);
  explanation_reply : res string;
  choice : string;
  text_input : string;
  markup_error : bool;
  action_cancelled : bool;
  text_interrupted : bool
}.

Record script : Type := {
  translate_reply : res string;
  rounds : list round
}.

(** The parsed command line. *)
Record args : Type := {
  sw_command : string;
  prompt : list string
}.

(** What [create_argument_parser().parse_args()] does with the command
    line: it returns the parsed arguments, or (a command line it does not
    accept, a request for help) it writes its message and leaves through
    [sys.exit(status)]. *)
Inductive command_line : Type :=
  | Parsed (a : args)
  | ParserExit (status : Z).

Coercion Parsed : args >-> command_line.

(** The local variables of [shell_whiz_ask] that live across iterations;
    [None] is a name not bound yet. *)
Record locals : Type := {
  first_run : bool;
  edit_prompt : string;
  shell_command : string;
  is_dangerous : option bool;
  dangerous_consequences : option string
}.

Definition set_first_run (b : bool) (st : locals) : locals :=
  {| first_run := b; edit_prompt := edit_prompt st;
     shell_command := shell_command st; is_dangerous := is_dangerous st;
     dangerous_consequences := dangerous_consequences st |}.

Definition set_edit_prompt (s : string) (st : locals) : locals :=
  {| first_run := first_run st; edit_prompt := s;
     shell_command := shell_command st; is_dangerous := is_dangerous st;
     dangerous_consequences := dangerous_consequences st |}.

Definition set_shell_command (s : string) (st : locals) : locals :=
  {| first_run := first_run st; edit_prompt := edit_prompt st;
     shell_command := s; is_dangerous := is_dangerous st;
     dangerous_consequences := dangerous_consequences st |}.

Definition set_is_dangerous (b : bool) (st : locals) : locals :=
  {| first_run := first_run st; edit_prompt := edit_prompt st;
     shell_command := shell_command st; is_dangerous := Some b;
     dangerous_consequences := dangerous_consequences st |}.

Definition set_dangerous_consequences (s : string) (st : locals) : locals :=
  {| first_run := first_run st; edit_prompt := edit_prompt st;
     shell_command := shell_command st; is_dangerous := is_dangerous st;
     dangerous_consequences := Some s |}.

(** How the loop body ends: the function returns, or the loop goes on. *)
Inductive loop_end : Type :=
  | Returned
  | AwaitingInput (st : locals).

(** How the process ends. *)
Inductive outcome : Type :=
  | Exit (status : Z)
  | Traceback (e : exn)
  | Pending (st : locals).

(** ** The program *)

Section Program.

Variable K : constants.

(** [print_explanation], lines 35-40. *)
Definition print_explanation (explanation : string) : M unit :=
  emit (EPrint ByExplanation
    " ================== [bold green]Explanation[/] ==================") ;;;
  emit (EMarkdown ByExplanation explanation) ;;;
  emit (EPrint ByExplanation "").

(** [print_command], lines 43-51. *)
Definition print_command (shell_command : string) : M unit :=
  emit (EPrint ByCommand
    (PyStr.nl ++
     " ==================== [bold green]Command[/] ===================="
     ++ PyStr.nl)%string) ;;;
  for_each (PyStr.splitlines shell_command)
    (fun line => emit (EPrint ByCommand (" " ++ line)%string)) ;;;
  emit (EPrint ByCommand "").

(** Line 89: the warning.  [rich.print] reads its argument as console
    markup, and the classifier's text is put into that markup as it is: when
    the result is markup [rich] cannot read (a closing tag such as "[/tmp]"
    that matches no open tag), [rich.print] raises [MarkupError] and prints
    nothing.  [rejected] tells whether it does. *)
Definition print_warning (rejected : bool) (dangerous_consequences : string)
  : M unit :=
  if rejected then raise MarkupError
  else
    emit (EPrint ByWarning
      (" [bold red]Warning[/]: [bold yellow]" ++ dangerous_consequences
       ++ "[/]" ++ PyStr.nl)%string).

(** Lines 65-73: the first pass only clears [first_run]; a later pass
    calls the editor when the revision instruction is not empty, and keeps
    the command when the editor raises [ShellWhizEditError]. *)
Definition revise_step (r : round) (st : locals) : M locals :=
  if first_run st then ret (set_first_run false st)
  else if negb (edit_prompt st =? "")%string then
    try_except
      (c <- call (Edit (shell_command st) (edit_prompt st)) (edit_reply r) ;;
       ret (set_shell_command c st))
      (fun e => match e with
                | ShellWhizEditError => Some (ret st)
                | _ => None
                end)
  else ret st.

(** Lines 81-86: the classifier is called directly, not awaited; when it
    raises [ShellWhizWarningError] only [is_dangerous] is assigned. *)
Definition classify_step (r : round) (st : locals) : M locals :=
  try_except
    (p <- call (Danger (shell_command st)) (danger_reply r) ;;
     ret (set_dangerous_consequences (snd p) (set_is_dangerous (fst p) st)))
    (fun e => match e with
              | ShellWhizWarningError => Some (ret (set_is_dangerous false st))
              | _ => None
              end).

(** Lines 88-91: the warning, which reads [dangerous_consequences]. *)
Definition warn_step (r : round) (st : locals) : M unit :=
  flag <- read_local "is_dangerous" (is_dangerous st) ;;
  if flag : bool then
    c <- read_local "dangerous_consequences" (dangerous_consequences st) ;;
    print_warning (markup_error r) c
  else ret tt.

(** Lines 75-96: render the command, create the explanation task, call the
    classifier, warn, await the explanation under the spinner, render it. *)
Definition assess_step (r : round) (st : locals) : M locals :=
  print_command (shell_command st) ;;;
  explanation_task <-
    create_task (Explain (shell_command st)) (explanation_reply r) ;;
  st1 <- classify_step r st ;;
  warn_step r st1 ;;;
  explanation <-
    finally
      (emit (ESpinnerStart (SW_WAIT_MSG K) (SW_WAIT_MSG_COLOR K)) ;;;
       await_task explanation_task)
      [ESpinnerStop] ;;
  print_explanation explanation ;;;
  ret st1.

(** Lines 98-128: reset the revision instruction, ask for an action and
    branch on it.  [None] is the [return] of line 128.  When the user
    interrupts the action prompt, [inquirer.prompt] returns [None] and the
    subscript of line 117 raises [TypeError]; when the user interrupts a text
    prompt, [inquirer.text] raises [KeyboardInterrupt]. *)
Definition choice_step (r : round) (st : locals) : M (option locals) :=
  let st := set_edit_prompt "" st in
  if action_cancelled r then
    emit EPromptCancelled ;;; raise TypeError
  else
    emit (EPromptAction (choice r)) ;;;
    if (choice r =? "Exit")%string then raise (SystemExit None)
    else if (choice r =? "Revise query")%string then
      if text_interrupted r then
        emit (ETextInterrupted "Revise query") ;;; raise KeyboardInterrupt
      else
        emit (EPromptText "Revise query" "" (text_input r)) ;;;
        ret (Some (set_edit_prompt (text_input r) st))
    else if (choice r =? "Edit manually")%string then
      if text_interrupted r then
        emit (ETextInterrupted "Edit command") ;;; raise KeyboardInterrupt
      else
        emit (EPromptText "Edit command" (shell_command st) (text_input r)) ;;;
        ret (Some (set_shell_command (text_input r) st))
    else if (choice r =? "Run this command")%string then
      emit (ESubprocess (shell_command st)) ;;;
      ret None
    else ret (Some st).

(** One pass through the body of [while True]. *)
Definition iteration (r : round) (st : locals) : M (option locals) :=
  st1 <- revise_step r st ;;
  st2 <- assess_step r st1 ;;
  choice_step r st2.

(** [while True], one round of the script per pass; when the script ends
    the loop is still waiting. *)
Fixpoint loop (rs : list round) (st : locals) : M loop_end :=
  match rs with
  | [] => ret (AwaitingInput st)
  | r :: rs' =>
      next <- iteration r st ;;
      match next with
      | Some st' => loop rs' st'
      | None => ret Returned
      end
  end.

(** The locals at line 64, before the first pass. *)
Definition initial (shell_command : string) : locals :=
  {| first_run := true; edit_prompt := ""; shell_command := shell_command;
     is_dangerous := None; dangerous_consequences := None |}.

(** [shell_whiz_ask], lines 54-128. *)
Definition shell_whiz_ask (prompt : string) (s : script) : M loop_end :=
  shell_command <-
    try_except
      (call (Translate prompt) (translate_reply s))
      (fun e => match e with
                | ShellWhizTranslationError =>
                    Some (emit (EPrint ByError
                            (SW_ERROR K ++
                             ": Shell Whiz doesn't know how to do this.")%string) ;;;
                          raise (SystemExit (Some (SW_ERROR_EXIT_CODE K))))
                | _ => None
                end) ;;
  loop (rounds s) (initial shell_command).

(** [run_ai_assistant], lines 131-139. *)
Definition run_ai_assistant (a : args) (s : script) : M loop_end :=
  emit EConfig ;;;
  if (sw_command a =? "ask")%string then
    let shell_command := PyStr.strip (PyStr.join " " (prompt a)) in
    if (shell_command =? "")%string then
      emit (EPrint ByError
              (SW_ERROR K ++ ": Please provide a valid prompt.")%string) ;;;
      raise (SystemExit (Some (INV_CLI_ARGS_EXIT_CODE K)))
    else shell_whiz_ask shell_command s
  else ret Returned.

(** [main], lines 142-148. *)
Definition main (cl : command_line) (s : script) : M loop_end :=
  match cl with
  | ParserExit status =>
      emit EParserMessage ;;; raise (SystemExit (Some status))
  | Parsed a =>
      if (sw_command a =? "config")%string then
        emit EUpdateConfig ;;; ret Returned
      else if (sw_command a =? "ask")%string then run_ai_assistant a s
      else ret Returned
  end.

(** The [except] clauses of [run] for [openai.error], in source order,
    each with the text it prints after [SW_ERROR]. *)
Definition openai_handlers : list (openai_error * string) :=
  [ (APIError,
     ": An error occurred while connecting to the OpenAI API. Please retry your request after a brief wait. The problem is on the side of the OpenAI. Visit https://status.openai.com for more information.");
    (Timeout,
     ": OpenAI API request timed out. Please retry your request after a brief wait.");
    (APIConnectionError,
     ": OpenAI API request failed to connect. Please check your internet connection and try again.");
    (InvalidRequestError,
     ": Your request was malformed or missing some required parameters, such as a token or an input.");
    (AuthenticationError,
     ": You are not authorized to access the OpenAI API. You may have entered the wrong API key. Your API key is invalid, expired or revoked. Please run [bold green]sw config[/] to set up the API key. Visit https://platform.openai.com/account/api-keys to get your API key.");
    (PermissionError,
     ": Your API key or token does not have the required scope or role to perform the requested action. Make sure your API key has the appropriate permissions for the action or model accessed.");
    (RateLimitError,
     ": OpenAI API request exceeded rate limit. If you are on a free plan, please upgrade to a paid plan for a better experience with Shell Whiz. Visit https://platform.openai.com/account/billing/limits for more information.");
    (ServiceUnavailableError,
     ": OpenAI API request failed due to a temporary server-side issue. Please retry your request after a brief wait. The problem is on the side of the OpenAI. Visit https://status.openai.com for more information.");
    (OpenAIError,
     ": An unknown error occurred while connecting to the OpenAI API. Please retry your request after a brief wait.") ].

(** The first clause whose class the raised exception is an instance of. *)
Fixpoint first_clause (c : openai_error) (hs : list (openai_error * string))
  : option (openai_error * string) :=
  match hs with
  | [] => None
  | (d, m) :: hs' => if issubclass c d then Some (d, m) else first_clause c hs'
  end.

(** The status the process ends with for [sys.exit(code)]. *)
Definition exit_status (code : option Z) : Z :=
  match code with
  | None => 0
  | Some n => n
  end.

(** [asyncio.run] when the main coroutine raised [e] after the trace [t]:
    a task that is still scheduled is cancelled.  When [e] derives from
    [Exception], the event loop runs once more before it stops, and the
    task, queued before the stop, starts: its request goes out and is then
    abandoned.  [KeyboardInterrupt] and [SystemExit] leave the event loop at
    once, and the task is cancelled before it starts. *)
Definition abandon (e : exn) (t : list event) : list event :=
  match scheduled_task None t with
  | Some c =>
      if is_Exception e then [ERequest c; ETaskCancelled c]
      else [ETaskCancelled c]
  | None => []
  end.

(** [run], lines 151-201: what the process prints and how it ends. *)
Definition run (cl : command_line) (s : script) : list event * outcome :=
  let m := main cl s in
  match snd m with
  | Ret Returned => (fst m, Exit 0)
  | Ret (AwaitingInput st) => (fst m, Pending st)
  | Raise e =>
      let t := fst m ++ abandon e (fst m) in
      match e with
      | OpenAI c =>
          match first_clause c openai_handlers with
          | Some (_, msg) =>
              (t ++ [EPrint ByError (SW_ERROR K ++ msg)%string],
               Exit (OPENAI_ERROR_EXIT_CODE K))
          | None => (t, Traceback e)
          end
      | KeyboardInterrupt =>
          (t ++ [EPrint ByNotice (PyStr.nl ++ "Exiting...")%string], Exit 0)
      | SystemExit code => (t, Exit (exit_status code))
      | _ => (t, Traceback e)
      end
  end.

End Program.

(** ** Reading traces *)

(** What a pass shows the user up to the action prompt: what it prints and
    the action prompt itself, answered or interrupted. *)
Definition is_shown (e : event) : bool :=
  match e with
  | EPrint _ _ | EMarkdown _ _ | EPromptAction _ | EPromptCancelled => true
  | _ => false
  end.

Definition is_warning (e : event) : bool :=
  match e with
  | EPrint ByWarning _ | EMarkdown ByWarning _ => true
  | _ => false
  end.

Definition is_edit_request (e : event) : bool :=
  match e with
  | ERequest (Edit _ _) => true
  | _ => false
  end.

(** Backend requests sent and not yet answered, after the trace [t], when
    [n] were outstanding before it. *)
Fixpoint outstanding (n : nat) (t : list event) : nat :=
  match t with
  | [] => n
  | ERequest _ :: t' => outstanding (S n) t'
  | EResponse _ :: t' => outstanding (Nat.pred n) t'
  | _ :: t' => outstanding n t'
  end.

(** Whether two requests are outstanding at some point of the trace. *)
Fixpoint overlap (n : nat) (t : list event) : bool :=
  match t with
  | [] => false
  | ERequest _ :: t' => (2 <=? S n)%nat || overlap (S n) t'
  | EResponse _ :: t' => overlap (Nat.pred n) t'
  | _ :: t' => overlap n t'
  end.

(** A trace in which requests never overlap and none is left outstanding. *)
Definition sequential (t : list event) : Prop :=
  overlap 0 t = false /\ outstanding 0 t = 0%nat.

(** Values of the constants used in the examples. *)
Definition sample_constants : constants :=
  {| INV_CLI_ARGS_EXIT_CODE := 1; OPENAI_ERROR_EXIT_CODE := 3;
     SW_ERROR := "[bold red]Error[/]"; SW_ERROR_EXIT_CODE := 2;
     SW_WAIT_MSG := "Wait, Shell Whiz is thinking";
     SW_WAIT_MSG_COLOR := "green" |}.

(** Modelled from the spec: the values bound in [shell_whiz.constants], a
    module that is not among the sources.  Section 6 of the specification:
    the exit codes are distinct, and the three error codes are not the
    success status 0. *)
Definition exit_codes_distinct (K : constants) : Prop :=
  NoDup [0; INV_CLI_ARGS_EXIT_CODE K; SW_ERROR_EXIT_CODE K;
         OPENAI_ERROR_EXIT_CODE K].

(** Modelled from the spec: [translate_nl_to_shell_command] of
    [shell_whiz.openai], a module that is not among the sources.  Section 2:
    it sends the prompt to the language model and returns a single shell
    command string, and fails with a distinct error when no command can be
    produced; section 8: a successful translation yields a non-empty command
    string.  [answer] is what the model produced: a command, or nothing;
    transport errors pass through unchanged (section 4.2). *)
Definition translate_nl_to_shell_command (answer : res (option string))
  : res string :=
  match answer with
  | Ret (Some c) =>
      if (c =? "")%string then Raise ShellWhizTranslationError else Ret c
  | Ret None => Raise ShellWhizTranslationError
  | Raise e => Raise e
  end.

(** The command block: the header, one line per line of the command, and an
    empty line. *)
Definition command_block (shell_command : string) : list event :=
  EPrint ByCommand
    (PyStr.nl ++
     " ==================== [bold green]Command[/] ===================="
     ++ PyStr.nl)%string
  :: map (fun line => EPrint ByCommand (" " ++ line)%string)
       (PyStr.splitlines shell_command)
  ++ [EPrint ByCommand ""].

(** The events between the command and the warning: the explanation task
    is created, then the classifier is called and answers. *)
Definition classify_events (cmd : string) : list event :=
  [ECreateTask (Explain cmd); ERequest (Danger cmd); EResponse (Danger cmd)].

Definition warning_block (consequences : string) : list event :=
  [EPrint ByWarning
     (" [bold red]Warning[/]: [bold yellow]" ++ consequences ++ "[/]"
      ++ PyStr.nl)%string].

(** The await of line 94 under the spinner: only here does the explanation
    request go out. *)
Definition await_events (K : constants) (cmd : string) : list event :=
  [ESpinnerStart (SW_WAIT_MSG K) (SW_WAIT_MSG_COLOR K);
   ERequest (Explain cmd); EResponse (Explain cmd); ESpinnerStop].

Definition explanation_block (explanation : string) : list event :=
  [EPrint ByExplanation
     " ================== [bold green]Explanation[/] ==================";
   EMarkdown ByExplanation explanation;
   EPrint ByExplanation ""].

(** What the classifier leaves in the locals. *)
Definition after_classifier (r : round) (st : locals) : res locals :=
  match danger_reply r with
  | Ret p => Ret (set_dangerous_consequences (snd p) (set_is_dangerous (fst p) st))
  | Raise ShellWhizWarningError => Ret (set_is_dangerous false st)
  | Raise e => Raise e
  end.

(** The verdict the warning is decided on. *)
Definition verdict (r : round) : option string :=
  match danger_reply r with
  | Ret (true, c) => Some c
  | _ => None
  end.

Definition warning_of (r : round) : list event :=
  match verdict r with
  | Some c => warning_block c
  | None => []
  end.

(** Whether the warning of this pass is attempted and rejected by [rich]. *)
Definition warning_fails (r : round) : bool :=
  match verdict r with
  | Some _ => markup_error r
  | None => false
  end.

(** The action prompt of a pass, as it shows in the trace. *)
Definition action_prompt (r : round) : event :=
  if action_cancelled r then EPromptCancelled else EPromptAction (choice r).

(** What [run] may add after the trace of [main]. *)
Definition closing_event (e : event) : bool :=
  match e with
  | ERequest (Explain _) | ETaskCancelled (Explain _) => true
  | EPrint ByError _ | EPrint ByNotice _ => true
  | _ => false
  end.

(** ** Further readings of strings and traces *)

(** Whether every character of a string is one [str.strip()] removes. *)
Fixpoint all_space (s : string) : bool :=
  match s with
  | "" => true
  | String c s' => PyStr.is_space c && all_space s'
  end.

(** A string without its line-boundary characters. *)
Fixpoint remove_linebreaks (s : string) : string :=
  match s with
  | "" => ""
  | String c s' =>
      if PyStr.is_linebreak c then remove_linebreaks s'
      else String c (remove_linebreaks s')
  end.

Fixpoint has_linebreak (s : string) : bool :=
  match s with
  | "" => false
  | String c s' => PyStr.is_linebreak c || has_linebreak s'
  end.

Definition is_request (e : event) : bool :=
  match e with
  | ERequest _ => true
  | _ => false
  end.

Definition is_translate_request (e : event) : bool :=
  match e with
  | ERequest (Translate _) => true
  | _ => false
  end.

Definition is_subprocess (e : event) : bool :=
  match e with
  | ESubprocess _ => true
  | _ => false
  end.


(** The events a pass through the loop body can emit. *)
Definition pass_event (e : event) : bool :=
  match e with
  | EPrint ByCommand _ | EPrint ByWarning _ | EPrint ByExplanation _
  | EMarkdown ByExplanation _ => true
  | ECreateTask (Explain _) => true
  | ERequest (Edit _ _) | ERequest (Danger _) | ERequest (Explain _) => true
  | EResponse (Edit _ _) | EResponse (Danger _) | EResponse (Explain _) => true
  | ESpinnerStart _ _ | ESpinnerStop => true
  | EPromptAction _ | EPromptText _ _ _ | ESubprocess _ => true
  | EPromptCancelled | ETextInterrupted _ => true
  | _ => false
  end.

(** The spinner over a trace: [on] tells whether it is running.  While it
    runs only backend traffic may happen; starting it twice or stopping it
    when it is not running is refused.  The result is the state at the end. *)
Fixpoint spinner (on : bool) (t : list event) : option bool :=
  match t with
  | [] => Some on
  | ESpinnerStart _ _ :: t' => if on then None else spinner true t'
  | ESpinnerStop :: t' => if on then spinner false t' else None
  | ERequest _ :: t' | EResponse _ :: t' | ECreateTask _ :: t' => spinner on t'
  | _ :: t' => if on then None else spinner false t'
  end.


Definition raises_system_exit {A} (x : res A) : bool :=
  match x with
  | Raise (SystemExit _) => true
  | _ => false
  end.


(** A round in which no backend call raises [SystemExit]. *)
Definition exit_free (r : round) : bool :=
  negb (raises_system_exit (edit_reply r))
  && negb (raises_system_exit (danger_reply r))
  && negb (raises_system_exit (explanation_reply r)).


(** The revision instruction a pass leaves for the next one (lines 98 and
    121). *)
Definition next_edit_prompt (r : round) : string :=
  if (choice r =? "Revise query")%string then text_input r else "".

(** The first character of a string is not white space (or there is none). *)
Definition starts_clean (s : string) : bool :=
  match s with
  | "" => true
  | String c _ => negb (PyStr.is_space c)
  end.

(** The last character of a string is not white space (or there is none). *)
Fixpoint ends_clean (s : string) : bool :=
  match s with
  | "" => true
  | String c "" => negb (PyStr.is_space c)
  | String _ s' => ends_clean s'
  end.


(** Where the exception of a round comes from: a backend call raised it
    and its caller has no clause for it; [rich] rejected the markup of the
    warning; the user interrupted the action prompt (line 117 then subscripts
    [None]), chose "Exit", or interrupted a text prompt. *)
Definition raised_in (r : round) (e : exn) : Prop :=
  (edit_reply r = Raise e /\ e <> ShellWhizEditError)
  \/ (danger_reply r = Raise e /\ e <> ShellWhizWarningError)
  \/ (e = MarkupError /\ markup_error r = true
      /\ exists c, danger_reply r = Ret (true, c))
  \/ explanation_reply r = Raise e
  \/ (e = TypeError /\ action_cancelled r = true)
  \/ (e = SystemExit None /\ action_cancelled r = false /\ choice r = "Exit")
  \/ (e = KeyboardInterrupt /\ action_cancelled r = false
      /\ text_interrupted r = true
      /\ (choice r = "Revise query" \/ choice r = "Edit manually")).

(** ** Basic facts *)

Lemma bind_ret_pair {A B} (t : list event) (a : A) (k : A -> M B) :
  bind (t, Ret a) k = (t ++ fst (k a), snd (k a)).
Proof. reflexivity. Qed.

Lemma bind_raise_pair {A B} (t : list event) (e : exn) (k : A -> M B) :
  bind (t, Raise e) k = (t, Raise e).
Proof. reflexivity. Qed.

(** Runs a monadic term whose steps are all known pairs. *)
Ltac run_m :=
  repeat (unfold emit, ret, raise, call;
          rewrite ?bind_ret_pair, ?bind_raise_pair;
          cbn [fst snd app]).

Lemma for_each_emit {A} (f : A -> event) (l : list A) :
  for_each l (fun a => emit (f a)) = (map f l, Ret tt).
Proof.
  induction l as [|a l IH]; simpl.
  - reflexivity.
  - unfold bind. simpl. rewrite IH. reflexivity.
Qed.

Lemma print_command_eq c : print_command c = (command_block c, Ret tt).
Proof.
  unfold print_command, command_block, bind. simpl.
  rewrite for_each_emit. reflexivity.
Qed.

Lemma filter_warning_command_block c : filter is_warning (command_block c) = [].
Proof.
  unfold command_block. simpl. rewrite filter_app. simpl.
  induction (PyStr.splitlines c) as [|l ls IH]; simpl; auto.
Qed.

Lemma filter_edit_command_block c :
  filter is_edit_request (command_block c) = [].
Proof.
  unfold command_block. simpl. rewrite filter_app. simpl.
  induction (PyStr.splitlines c) as [|l ls IH]; simpl; auto.
Qed.

Lemma outstanding_command_block n c t :
  outstanding n (command_block c ++ t) = outstanding n t.
Proof.
  unfold command_block. simpl. rewrite <- app_assoc. simpl.
  induction (PyStr.splitlines c) as [|l ls IH]; simpl; auto.
Qed.

Lemma overlap_command_block n c t :
  overlap n (command_block c ++ t) = overlap n t.
Proof.
  unfold command_block. simpl. rewrite <- app_assoc. simpl.
  induction (PyStr.splitlines c) as [|l ls IH]; simpl; auto.
Qed.

(** ** The steps of the loop body, as equations *)

Lemma classify_step_eq r st :
  classify_step r st =
  ([ERequest (Danger (shell_command st)); EResponse (Danger (shell_command st))],
   after_classifier r st).
Proof.
  unfold classify_step, after_classifier, try_except, bind, call. simpl.
  destruct (danger_reply r) as [p|e]; simpl; [reflexivity|].
  destruct e; reflexivity.
Qed.

Lemma warn_step_after_classifier r st st1 :
  after_classifier r st = Ret st1 ->
  warn_step r st1 =
  if warning_fails r then ([], Raise MarkupError) else (warning_of r, Ret tt).
Proof.
  unfold after_classifier, warning_fails, warning_of, verdict, warn_step,
    print_warning.
  destruct (danger_reply r) as [[d c]|e]; simpl.
  - intros H; injection H as <-. destruct d; [|reflexivity].
    cbn. destruct (markup_error r); reflexivity.
  - destruct e; try discriminate. intros H; injection H as <-. reflexivity.
Qed.

Lemma assess_step_eq K r st :
  assess_step K r st =
  match after_classifier r st with
  | Ret st1 =>
      if warning_fails r then
        (command_block (shell_command st)
         ++ classify_events (shell_command st),
         Raise MarkupError)
      else
        (command_block (shell_command st) ++ classify_events (shell_command st)
         ++ warning_of r ++ await_events K (shell_command st)
         ++ match explanation_reply r with
            | Ret e => explanation_block e
            | Raise _ => []
            end,
         match explanation_reply r with
         | Ret _ => Ret st1
         | Raise e => Raise e
         end)
  | Raise e =>
      (command_block (shell_command st) ++ classify_events (shell_command st),
       Raise e)
  end.
Proof.
  unfold assess_step.
  rewrite print_command_eq, classify_step_eq.
  unfold create_task, await_task, finally, print_explanation,
    classify_events, await_events, explanation_block.
  destruct (after_classifier r st) as [st1|e] eqn:Hc.
  - run_m. rewrite (warn_step_after_classifier _ _ _ Hc).
    destruct (warning_fails r).
    + run_m. rewrite <- ?app_assoc. reflexivity.
    + destruct (explanation_reply r) as [x|e]; run_m;
        rewrite <- ?app_assoc; reflexivity.
  - run_m. rewrite <- ?app_assoc. reflexivity.
Qed.

(** Goes through the branches of the choice step. *)
Ltac choice_cases r :=
  unfold choice_step;
  destruct (action_cancelled r);
  [| destruct (choice r =? "Exit")%string;
     [| destruct (choice r =? "Revise query")%string;
        [ destruct (text_interrupted r)
        | destruct (choice r =? "Edit manually")%string;
          [ destruct (text_interrupted r)
          | destruct (choice r =? "Run this command")%string ] ] ] ].

Lemma revise_step_first r st :
  first_run st = true -> revise_step r st = ([], Ret (set_first_run false st)).
Proof. intros H. unfold revise_step. rewrite H. reflexivity. Qed.

Lemma revise_step_later r st :
  first_run st = false ->
  revise_step r st =
  if (edit_prompt st =? "")%string then ([], Ret st)
  else ([ERequest (Edit (shell_command st) (edit_prompt st));
         EResponse (Edit (shell_command st) (edit_prompt st))],
        match edit_reply r with
        | Ret c => Ret (set_shell_command c st)
        | Raise ShellWhizEditError => Ret st
        | Raise e => Raise e
        end).
Proof.
  intros H. unfold revise_step. rewrite H.
  destruct (edit_prompt st =? "")%string; simpl; [reflexivity|].
  unfold try_except, bind, call; simpl.
  destruct (edit_reply r) as [c|e]; simpl; [reflexivity|].
  destruct e; reflexivity.
Qed.

Lemma revise_step_clears_first_run r st st1 :
  result (revise_step r st) = Ret st1 -> first_run st1 = false.
Proof.
  destruct (first_run st) eqn:F.
  - rewrite revise_step_first by assumption. simpl.
    intros H; injection H as <-. reflexivity.
  - rewrite revise_step_later by assumption.
    destruct (edit_prompt st =? "")%string; simpl.
    + intros H; injection H as <-. exact F.
    + destruct (edit_reply r) as [c|e]; [|destruct e]; simpl;
        intros H; try discriminate; injection H as <-; exact F.
Qed.

Lemma assess_step_locals K r st st1 :
  result (assess_step K r st) = Ret st1 -> after_classifier r st = Ret st1.
Proof.
  rewrite assess_step_eq. destruct (after_classifier r st) as [x|e]; simpl.
  - destruct (warning_fails r); [discriminate|].
    destruct (explanation_reply r); [auto | discriminate].
  - discriminate.
Qed.

Lemma after_classifier_command r st st1 :
  after_classifier r st = Ret st1 ->
  shell_command st1 = shell_command st /\ first_run st1 = first_run st
  /\ edit_prompt st1 = edit_prompt st.
Proof.
  unfold after_classifier.
  destruct (danger_reply r) as [p|e]; [|destruct e]; intros H;
    try discriminate; injection H as <-; auto.
Qed.

Lemma iteration_trace K r st :
  trace (iteration K r st) =
  trace (revise_step r st)
  ++ match result (revise_step r st) with
     | Ret st1 =>
         trace (assess_step K r st1)
         ++ match result (assess_step K r st1) with
            | Ret st2 => trace (choice_step r st2)
            | Raise _ => []
            end
     | Raise _ => []
     end.
Proof.
  unfold iteration, bind, trace, result.
  destruct (snd (revise_step r st)); cbn [fst snd]; [|now rewrite app_nil_r].
  destruct (snd (assess_step K r a)); cbn [fst snd]; [reflexivity|].
  now rewrite app_nil_r.
Qed.

Lemma overlap_app n t1 t2 :
  overlap n (t1 ++ t2) = overlap n t1 || overlap (outstanding n t1) t2.
Proof.
  revert n. induction t1 as [|e t1 IH]; intros n; simpl; [reflexivity|].
  destruct e; auto. rewrite IH. now rewrite orb_assoc.
Qed.

Lemma outstanding_app n t1 t2 :
  outstanding n (t1 ++ t2) = outstanding (outstanding n t1) t2.
Proof.
  revert n. induction t1 as [|e t1 IH]; intros n; simpl; [reflexivity|].
  destruct e; auto.
Qed.

Lemma string_app_inj_l (p a b : string) :
  (p ++ a)%string = (p ++ b)%string -> a = b.
Proof.
  induction p as [|c p IH]; simpl; intros H; [exact H|].
  injection H as H. auto.
Qed.

Lemma filter_warning_assess K r st :
  filter is_warning (trace (assess_step K r st)) =
  if warning_fails r then [] else warning_of r.
Proof.
  rewrite assess_step_eq.
  destruct (after_classifier r st) as [st1|e] eqn:Hc.
  - destruct (warning_fails r); unfold trace; cbn [fst];
      rewrite !filter_app, filter_warning_command_block; [reflexivity|].
    cbn [app].
    change (filter is_warning (classify_events (shell_command st)))
      with (@nil event).
    change (filter is_warning (await_events K (shell_command st)))
      with (@nil event).
    cbn [app].
    replace (filter is_warning
               match explanation_reply r with
               | Ret e => explanation_block e
               | Raise _ => []
               end) with (@nil event)
      by (destruct (explanation_reply r); reflexivity).
    rewrite app_nil_r.
    unfold warning_of. destruct (verdict r); reflexivity.
  - unfold trace; cbn [fst].
    rewrite !filter_app, filter_warning_command_block. cbn.
    unfold after_classifier in Hc. unfold warning_fails, warning_of, verdict.
    destruct (danger_reply r) as [p|x]; [discriminate | reflexivity].
Qed.

Lemma translation_failure_is_fatal_run K (a : args) s :
  sw_command a = "ask" ->
  PyStr.strip (PyStr.join " " (prompt a)) <> "" ->
  translate_reply s = Raise ShellWhizTranslationError ->
  exists t, run K a s = (t, Exit (SW_ERROR_EXIT_CODE K)).
Proof.
  intros Hask Hne Htr.
  unfold run, main, run_ai_assistant. rewrite Hask.
  cbn [String.eqb Ascii.eqb Bool.eqb].
  destruct (String.eqb_spec (PyStr.strip (PyStr.join " " (prompt a))) "")
    as [E|_]; [contradiction|].
  unfold shell_whiz_ask, try_except, call. rewrite Htr.
  eexists. reflexivity.
Qed.

(** The two shapes of the trace of an assessment: cut short after the
    classifier (by an exception of the classifier or of the warning), or
    carried through to the await of the explanation. *)
Lemma assess_trace_cases K r st (P : list event -> Prop) :
  P (command_block (shell_command st) ++ classify_events (shell_command st)) ->
  (forall w x,
     (w = [] \/ exists c, w = warning_block c) ->
     (x = [] \/ exists e, x = explanation_block e) ->
     P (command_block (shell_command st) ++ classify_events (shell_command st)
        ++ w ++ await_events K (shell_command st) ++ x)) ->
  P (trace (assess_step K r st)).
Proof.
  intros Hcut Hfull. rewrite assess_step_eq.
  destruct (after_classifier r st) as [st1|e]; [|exact Hcut].
  destruct (warning_fails r); [exact Hcut|].
  unfold trace; cbn [fst]. apply Hfull.
  - unfold warning_of. destruct (verdict r); eauto.
  - destruct (explanation_reply r); eauto.
Qed.

Lemma assess_step_starts K r st :
  exists t,
    trace (assess_step K r st) = command_block (shell_command st) ++ t.
Proof.
  apply (assess_trace_cases K r st
           (fun x => exists t, x = command_block (shell_command st) ++ t)).
  - eauto.
  - intros w x _ _. eauto.
Qed.

(** ** One request at a time *)

Lemma overlap_assess_tail K cmd w x :
  (w = [] \/ exists c, w = warning_block c) ->
  (x = [] \/ exists e, x = explanation_block e) ->
  overlap 0 (classify_events cmd ++ w ++ await_events K cmd ++ x) = false.
Proof.
  intros [-> | [c ->]] [-> | [e ->]]; reflexivity.
Qed.

Lemma explanation_passes_one_at_a_time K r st :
  overlap 0 (trace (assess_step K r st)) = false.
Proof.
  apply (assess_trace_cases K r st (fun t => overlap 0 t = false)).
  - rewrite overlap_command_block. reflexivity.
  - intros w x Hw Hx. rewrite overlap_command_block.
    now apply overlap_assess_tail.
Qed.

Lemma sequential_app t1 t2 : sequential t1 -> sequential t2 -> sequential (t1 ++ t2).
Proof.
  intros [O1 N1] [O2 N2]. split.
  - rewrite overlap_app, O1, N1, O2. reflexivity.
  - rewrite outstanding_app, N1, N2. reflexivity.
Qed.

Lemma sequential_nil : sequential [].
Proof. split; reflexivity. Qed.

Lemma sequential_revise r st : sequential (trace (revise_step r st)).
Proof.
  destruct (first_run st) eqn:F.
  - rewrite revise_step_first by assumption. apply sequential_nil.
  - rewrite revise_step_later by assumption.
    destruct (edit_prompt st =? "")%string; split; reflexivity.
Qed.

Lemma sequential_assess K r st : sequential (trace (assess_step K r st)).
Proof.
  split.
  - apply explanation_passes_one_at_a_time.
  - apply (assess_trace_cases K r st (fun t => outstanding 0 t = 0%nat)).
    + rewrite outstanding_command_block. reflexivity.
    + intros w x [-> | [c ->]] [-> | [e ->]];
        rewrite outstanding_command_block; reflexivity.
Qed.

Lemma sequential_choice r st : sequential (trace (choice_step r st)).
Proof. choice_cases r; split; reflexivity. Qed.

Lemma sequential_iteration K r st : sequential (trace (iteration K r st)).
Proof.
  rewrite iteration_trace.
  apply sequential_app; [apply sequential_revise|].
  destruct (result (revise_step r st)); [|apply sequential_nil].
  apply sequential_app; [apply sequential_assess|].
  destruct (result (assess_step K r a)); [|apply sequential_nil].
  apply sequential_choice.
Qed.

Lemma sequential_loop K rs : forall st, sequential (trace (loop K rs st)).
Proof.
  induction rs as [|r rs IH]; intros st; cbn [loop].
  - apply sequential_nil.
  - pose proof (sequential_iteration K r st) as Hi.
    unfold bind, trace in *.
    destruct (snd (iteration K r st)) as [[st'|]|e]; cbn [fst].
    + apply sequential_app; [exact Hi | apply IH].
    + apply sequential_app; [exact Hi | apply sequential_nil].
    + exact Hi.
Qed.

(** Over a whole session no two backend requests are outstanding together. *)
Lemma shell_whiz_ask_sequential K p s : sequential (trace (shell_whiz_ask K p s)).
Proof.
  unfold shell_whiz_ask, try_except, call, bind, trace. cbn [fst snd].
  destruct (translate_reply s) as [c|e]; cbn [fst snd].
  - apply (sequential_app [_; _]); [split; reflexivity | apply sequential_loop].
  - destruct e; cbn [fst snd]; split; reflexivity.
Qed.

(** ** The claims *)

(** C1.  The fixed order of a pass (command, warning exactly when the
    verdict is dangerous, explanation, choice prompt) is broken by line 89:
    the classifier's text goes into [rich] markup as it is.  Here the verdict
    is dangerous and its text holds "[/tmp]", a closing tag that matches no
    open tag: [rich.print] raises [MarkupError], so the pass shows the
    command and then neither the warning nor the explanation nor the choice
    prompt, and the run ends in a traceback (after [asyncio.run] let the
    explanation task, still scheduled, send its request and cancelled it). *)
Theorem unescaped_consequences_abort_pass :
  let r :=
    {| edit_reply := Ret "";
       danger_reply := Ret (true, "deletes everything under [/tmp]");
       explanation_reply := Ret "removes the files in /tmp";
       choice := "Run this command"; text_input := "";
       markup_error := true; action_cancelled := false;
       text_interrupted := false |} in
  iteration sample_constants r (initial "rm -rf /tmp/*") =
    ([EPrint ByCommand
        (PyStr.nl ++
         " ==================== [bold green]Command[/] ===================="
         ++ PyStr.nl)%string;
      EPrint ByCommand " rm -rf /tmp/*";
      EPrint ByCommand "";
      ECreateTask (Explain "rm -rf /tmp/*");
      ERequest (Danger "rm -rf /tmp/*");
      EResponse (Danger "rm -rf /tmp/*")],
     Raise MarkupError)
  /\ run sample_constants {| sw_command := "ask"; prompt := ["clean"; "tmp"] |}
       {| translate_reply := Ret "rm -rf /tmp/*"; rounds := [r] |} =
    ([EConfig; ERequest (Translate "clean tmp");
      EResponse (Translate "clean tmp");
      EPrint ByCommand
        (PyStr.nl ++
         " ==================== [bold green]Command[/] ===================="
         ++ PyStr.nl)%string;
      EPrint ByCommand " rm -rf /tmp/*";
      EPrint ByCommand "";
      ECreateTask (Explain "rm -rf /tmp/*");
      ERequest (Danger "rm -rf /tmp/*");
      EResponse (Danger "rm -rf /tmp/*");
      ERequest (Explain "rm -rf /tmp/*");
      ETaskCancelled (Explain "rm -rf /tmp/*")],
     Traceback MarkupError)
  /\ filter is_shown
       (trace (iteration sample_constants r (initial "rm -rf /tmp/*"))) =
     [EPrint ByCommand
        (PyStr.nl ++
         " ==================== [bold green]Command[/] ===================="
         ++ PyStr.nl)%string;
      EPrint ByCommand " rm -rf /tmp/*";
      EPrint ByCommand ""].
Proof.
  cbv zeta. split; [|split].
  - vm_compute. reflexivity.
  - vm_compute. reflexivity.
  - vm_compute. reflexivity.
Qed.

(** C2.  When the translator raises [ShellWhizTranslationError], the process
    prints the dedicated message and exits with [SW_ERROR_EXIT_CODE]; the
    trace holds the configuration check, the translation request and the
    message, so nothing is rendered, classified, explained or asked. *)
Theorem translation_failure_is_fatal (K : constants) (a : args) (s : script) :
  sw_command a = "ask" ->
  PyStr.strip (PyStr.join " " (prompt a)) <> "" ->
  translate_reply s = Raise ShellWhizTranslationError ->
  let p := PyStr.strip (PyStr.join " " (prompt a)) in
  shell_whiz_ask K p s =
    ([ERequest (Translate p); EResponse (Translate p);
      EPrint ByError
        (SW_ERROR K ++ ": Shell Whiz doesn't know how to do this.")%string],
     Raise (SystemExit (Some (SW_ERROR_EXIT_CODE K))))
  /\ run K a s =
    ([EConfig; ERequest (Translate p); EResponse (Translate p);
      EPrint ByError
        (SW_ERROR K ++ ": Shell Whiz doesn't know how to do this.")%string],
     Exit (SW_ERROR_EXIT_CODE K)).
Proof.
  intros Hask Hne Htr p.
  assert (Hs : shell_whiz_ask K p s =
    ([ERequest (Translate p); EResponse (Translate p);
      EPrint ByError
        (SW_ERROR K ++ ": Shell Whiz doesn't know how to do this.")%string],
     Raise (SystemExit (Some (SW_ERROR_EXIT_CODE K))))).
  { unfold shell_whiz_ask, try_except, call. rewrite Htr. reflexivity. }
  split; [exact Hs|].
  unfold run, main, run_ai_assistant. rewrite Hask. cbn [String.eqb Ascii.eqb Bool.eqb].
  fold p. destruct (String.eqb_spec p "") as [E|_]; [contradiction|].
  rewrite Hs. reflexivity.
Qed.

Lemma translation_failure_is_fatal_witness :
  run sample_constants {| sw_command := "ask"; prompt := ["list"; "files"] |}
    {| translate_reply := Raise ShellWhizTranslationError; rounds := [] |} =
  ([EConfig; ERequest (Translate "list files");
    EResponse (Translate "list files");
    EPrint ByError "[bold red]Error[/]: Shell Whiz doesn't know how to do this."],
   Exit 2).
Proof.
  apply (translation_failure_is_fatal sample_constants
           {| sw_command := "ask"; prompt := ["list"; "files"] |}
           {| translate_reply := Raise ShellWhizTranslationError;
              rounds := [] |}).
  - reflexivity.
  - vm_compute. discriminate.
  - reflexivity.
Defined.

(** C3.  When the editor is called (a pass after the first, with a non-empty
    revision instruction) and raises [ShellWhizEditError], the locals after
    the edit step are the locals before it, so the command is the same; the
    pass goes on and renders that command. *)
Theorem failed_edit_keeps_command (K : constants) (r : round) (st : locals) :
  first_run st = false ->
  edit_prompt st <> "" ->
  edit_reply r = Raise ShellWhizEditError ->
  revise_step r st =
    ([ERequest (Edit (shell_command st) (edit_prompt st));
      EResponse (Edit (shell_command st) (edit_prompt st))],
     Ret st)
  /\ exists t,
       trace (iteration K r st) =
       [ERequest (Edit (shell_command st) (edit_prompt st));
        EResponse (Edit (shell_command st) (edit_prompt st))]
       ++ command_block (shell_command st) ++ t.
Proof.
  intros F Hne He.
  assert (Hr : revise_step r st =
    ([ERequest (Edit (shell_command st) (edit_prompt st));
      EResponse (Edit (shell_command st) (edit_prompt st))], Ret st)).
  { rewrite revise_step_later by assumption.
    destruct (String.eqb_spec (edit_prompt st) "") as [E|_]; [contradiction|].
    rewrite He. reflexivity. }
  split; [exact Hr|].
  rewrite iteration_trace, Hr. unfold trace at 1, result at 1; cbn [fst snd].
  destruct (assess_step_starts K r st) as [t Ht]. rewrite Ht.
  eexists. rewrite <- app_assoc. reflexivity.
Qed.

Lemma failed_edit_keeps_command_witness :
  revise_step
    {| edit_reply := Raise ShellWhizEditError; danger_reply := Ret (false, "");
       explanation_reply := Ret "lists files"; choice := "Exit";
       text_input := "";
       markup_error := false; action_cancelled := false;
       text_interrupted := false |}
    {| first_run := false; edit_prompt := "show hidden files";
       shell_command := "ls"; is_dangerous := Some false;
       dangerous_consequences := Some "" |} =
  ([ERequest (Edit "ls" "show hidden files");
    EResponse (Edit "ls" "show hidden files")],
   Ret {| first_run := false; edit_prompt := "show hidden files";
          shell_command := "ls"; is_dangerous := Some false;
          dangerous_consequences := Some "" |}).
Proof.
  apply (failed_edit_keeps_command sample_constants
           {| edit_reply := Raise ShellWhizEditError;
              danger_reply := Ret (false, "");
              explanation_reply := Ret "lists files"; choice := "Exit";
              text_input := "";
              markup_error := false; action_cancelled := false;
              text_interrupted := false |}
           {| first_run := false; edit_prompt := "show hidden files";
              shell_command := "ls"; is_dangerous := Some false;
              dangerous_consequences := Some "" |}).
  - reflexivity.
  - simpl. discriminate.
  - reflexivity.
Defined.

(** C4.  When the classifier raises [ShellWhizWarningError], the pass prints
    no warning, [is_dangerous] is false, and the pass goes on to await the
    explanation and display it: how the step ends depends on the explanation
    reply alone. *)
Theorem classifier_failure_is_not_dangerous
  (K : constants) (r : round) (st : locals) :
  danger_reply r = Raise ShellWhizWarningError ->
  assess_step K r st =
    (command_block (shell_command st) ++ classify_events (shell_command st)
     ++ await_events K (shell_command st)
     ++ match explanation_reply r with
        | Ret e => explanation_block e
        | Raise _ => []
        end,
     match explanation_reply r with
     | Ret _ => Ret (set_is_dangerous false st)
     | Raise e => Raise e
     end)
  /\ filter is_warning (trace (assess_step K r st)) = []
  /\ is_dangerous (set_is_dangerous false st) = Some false.
Proof.
  intros Hd. split; [|split].
  - rewrite assess_step_eq.
    unfold after_classifier, warning_fails, warning_of, verdict.
    rewrite Hd. reflexivity.
  - rewrite filter_warning_assess. unfold warning_fails, warning_of, verdict.
    rewrite Hd. reflexivity.
  - reflexivity.
Qed.

Lemma classifier_failure_is_not_dangerous_witness :
  filter is_warning
    (trace (assess_step sample_constants
       {| edit_reply := Ret ""; danger_reply := Raise ShellWhizWarningError;
          explanation_reply := Ret "removes everything"; choice := "Exit";
          text_input := "";
          markup_error := false; action_cancelled := false;
          text_interrupted := false |}
       (initial "rm -rf /"))) = [].
Proof.
  apply (classifier_failure_is_not_dangerous sample_constants
           {| edit_reply := Ret ""; danger_reply := Raise ShellWhizWarningError;
              explanation_reply := Ret "removes everything"; choice := "Exit";
              text_input := "";
              markup_error := false; action_cancelled := false;
              text_interrupted := false |}
           (initial "rm -rf /")).
  reflexivity.
Defined.

Lemma choice_step_revise r st st' :
  choice r = "Revise query" ->
  snd (choice_step r st) = Ret (Some st') ->
  st' = set_edit_prompt (text_input r) (set_edit_prompt "" st).
Proof.
  intros H. unfold choice_step. rewrite H.
  destruct (action_cancelled r); [discriminate|].
  destruct (text_interrupted r); [discriminate|].
  cbn. intros E; injection E as <-. reflexivity.
Qed.

Lemma filter_edit_after_revise K r st1 :
  filter is_edit_request
    (trace (assess_step K r st1)
     ++ match result (assess_step K r st1) with
        | Ret st2 => trace (choice_step r st2)
        | Raise _ => []
        end) = [].
Proof.
  rewrite filter_app.
  assert (Ha : filter is_edit_request (trace (assess_step K r st1)) = []).
  { apply (assess_trace_cases K r st1 (fun t => filter is_edit_request t = [])).
    - rewrite filter_app, filter_edit_command_block. reflexivity.
    - intros w x [-> | [c ->]] [-> | [e ->]];
        rewrite filter_app, filter_edit_command_block; reflexivity. }
  rewrite Ha. cbn [app].
  destruct (result (assess_step K r st1)) as [st2|e]; [|reflexivity].
  unfold trace. choice_cases r; reflexivity.
Qed.

(** C5.  A pass in which the user chooses "Revise query" and submits an
    empty instruction hands on the command it rendered; in the next pass the
    edit step does nothing (no editor request anywhere in that pass) and the
    same command block is rendered first. *)
Theorem empty_revision_is_noop
  (K : constants) (r1 r2 : round) (st st' : locals) :
  choice r1 = "Revise query" ->
  text_input r1 = "" ->
  result (iteration K r1 st) = Ret (Some st') ->
  (exists st1, result (revise_step r1 st) = Ret st1
               /\ shell_command st' = shell_command st1)
  /\ revise_step r2 st' = ([], Ret st')
  /\ filter is_edit_request (trace (iteration K r2 st')) = []
  /\ exists t, trace (iteration K r2 st') = command_block (shell_command st') ++ t.
Proof.
  intros Hc Ht Hi.
  unfold iteration, bind, result in Hi.
  destruct (snd (revise_step r1 st)) as [st1|e] eqn:H1; [|discriminate].
  cbn [snd] in Hi.
  destruct (snd (assess_step K r1 st1)) as [st2|e] eqn:H2; [|discriminate].
  cbn [snd] in Hi.
  apply (choice_step_revise r1 st2 st' Hc) in Hi. rewrite Ht in Hi. subst st'.
  pose proof (revise_step_clears_first_run r1 st st1 H1) as F1.
  pose proof (assess_step_locals K r1 st1 st2 H2) as Hcl.
  destruct (after_classifier_command _ _ _ Hcl) as (Hcmd & Hfr & _).
  set (st' := set_edit_prompt "" (set_edit_prompt "" st2)).
  assert (Hrev : revise_step r2 st' = ([], Ret st')).
  { rewrite revise_step_later; [reflexivity|].
    unfold st'; simpl. congruence. }
  split; [|split; [|split]].
  - exists st1. split; [exact H1 | exact Hcmd].
  - exact Hrev.
  - rewrite iteration_trace, Hrev. unfold trace at 1, result at 1.
    cbn [fst snd app]. apply filter_edit_after_revise.
  - rewrite iteration_trace, Hrev. unfold trace at 1, result at 1.
    cbn [fst snd app].
    destruct (assess_step_starts K r2 st') as [t Ht2]. rewrite Ht2.
    eexists. rewrite <- app_assoc. reflexivity.
Qed.

Lemma empty_revision_is_noop_witness :
  revise_step
    {| edit_reply := Ret "ls -a"; danger_reply := Ret (false, "");
       explanation_reply := Ret "lists files"; choice := "Exit";
       text_input := "";
       markup_error := false; action_cancelled := false;
       text_interrupted := false |}
    {| first_run := false; edit_prompt := ""; shell_command := "ls -la";
       is_dangerous := Some false; dangerous_consequences := Some "" |} =
  ([], Ret {| first_run := false; edit_prompt := ""; shell_command := "ls -la";
              is_dangerous := Some false; dangerous_consequences := Some "" |}).
Proof.
  apply (empty_revision_is_noop sample_constants
           {| edit_reply := Ret ""; danger_reply := Ret (false, "");
              explanation_reply := Ret "lists files";
              choice := "Revise query"; text_input := "";
              markup_error := false; action_cancelled := false;
              text_interrupted := false |}
           {| edit_reply := Ret "ls -a"; danger_reply := Ret (false, "");
              explanation_reply := Ret "lists files"; choice := "Exit";
              text_input := "";
              markup_error := false; action_cancelled := false;
              text_interrupted := false |}
           (initial "ls -la")).
  - reflexivity.
  - reflexivity.
  - reflexivity.
Defined.

Lemma loop_first_pass K r rs c :
  exists t, trace (loop K (r :: rs) (initial c)) = command_block c ++ t.
Proof.
  cbn [loop]. unfold bind, trace.
  assert (Hi : exists t, fst (iteration K r (initial c)) = command_block c ++ t).
  { pose proof (iteration_trace K r (initial c)) as H. unfold trace in H.
    rewrite H. rewrite revise_step_first by reflexivity.
    unfold result; cbn [fst snd app].
    destruct (assess_step_starts K r (set_first_run false (initial c)))
      as [t Ht]. unfold trace in Ht. rewrite Ht.
    eexists. rewrite <- app_assoc. reflexivity. }
  destruct Hi as [t Ht].
  destruct (snd (iteration K r (initial c))) as [next|e]; cbn [fst].
  - rewrite Ht. eexists. rewrite <- app_assoc. reflexivity.
  - rewrite Ht. eexists. reflexivity.
Qed.

(** C6.  With the translator as the specification words it, a successful
    translation of a non-empty prompt is a non-empty command, and
    [shell_whiz_ask] hands exactly that string to the first render: the
    trace is the translation request followed by the command block of that
    command. *)
Theorem translated_command_is_rendered_nonempty
  (K : constants) (p : string) (answer : res (option string))
  (c : string) (r : round) (rs : list round) :
  p <> "" ->
  translate_nl_to_shell_command answer = Ret c ->
  c <> ""
  /\ exists t,
       trace (shell_whiz_ask K p
                {| translate_reply := translate_nl_to_shell_command answer;
                   rounds := r :: rs |}) =
       [ERequest (Translate p); EResponse (Translate p)]
       ++ command_block c ++ t.
Proof.
  intros _ Htr. split.
  - unfold translate_nl_to_shell_command in Htr.
    destruct answer as [[x|]|e]; try discriminate.
    destruct (String.eqb_spec x "") as [E|N]; [discriminate|].
    injection Htr as <-. exact N.
  - unfold shell_whiz_ask, try_except, call. cbn [translate_reply rounds snd].
    rewrite Htr. rewrite bind_ret_pair.
    destruct (loop_first_pass K r rs c) as [t Ht]. unfold trace in *.
    cbn [fst]. rewrite Ht. exists t. reflexivity.
Qed.

Lemma translated_command_is_rendered_nonempty_witness :
  "ls -la" <> "".
Proof.
  apply (translated_command_is_rendered_nonempty sample_constants
           "list files" (Ret (Some "ls -la")) "ls -la"
           {| edit_reply := Ret ""; danger_reply := Ret (false, "");
              explanation_reply := Ret "lists files"; choice := "Exit";
              text_input := "";
              markup_error := false; action_cancelled := false;
              text_interrupted := false |} []).
  - discriminate.
  - reflexivity.
Defined.

Lemma sample_codes_distinct : exit_codes_distinct sample_constants.
Proof. unfold exit_codes_distinct. repeat constructor; simpl; lia. Qed.

(** C7.  For [ask], the words are joined with spaces and stripped; when the
    result is empty the process prints the usage message and exits with
    [INV_CLI_ARGS_EXIT_CODE] after the configuration check alone: no backend
    request is in the trace.  With distinct exit codes, that status differs
    from the one of a run whose translation fails (the general error code)
    and from the one for backend errors. *)
Theorem empty_prompt_is_usage_error
  (K : constants) (a : args) (s : script) :
  exit_codes_distinct K ->
  sw_command a = "ask" ->
  PyStr.strip (PyStr.join " " (prompt a)) = "" ->
  run K a s =
    ([EConfig;
      EPrint ByError (SW_ERROR K ++ ": Please provide a valid prompt.")%string],
     Exit (INV_CLI_ARGS_EXIT_CODE K))
  /\ INV_CLI_ARGS_EXIT_CODE K <> SW_ERROR_EXIT_CODE K
  /\ INV_CLI_ARGS_EXIT_CODE K <> OPENAI_ERROR_EXIT_CODE K
  /\ forall a' s',
       sw_command a' = "ask" ->
       PyStr.strip (PyStr.join " " (prompt a')) <> "" ->
       translate_reply s' = Raise ShellWhizTranslationError ->
       snd (run K a' s') <> snd (run K a s).
Proof.
  intros Hd Hask He.
  assert (Hrun : run K a s =
    ([EConfig;
      EPrint ByError (SW_ERROR K ++ ": Please provide a valid prompt.")%string],
     Exit (INV_CLI_ARGS_EXIT_CODE K))).
  { unfold run, main, run_ai_assistant. rewrite Hask.
    cbn [String.eqb Ascii.eqb Bool.eqb]. rewrite He. reflexivity. }
  unfold exit_codes_distinct in Hd.
  inversion Hd as [|? ? _ Hd1]; subst.
  inversion Hd1 as [|? ? Hn _]; subst.
  assert (N1 : INV_CLI_ARGS_EXIT_CODE K <> SW_ERROR_EXIT_CODE K)
    by (intros E; apply Hn; simpl; auto).
  assert (N2 : INV_CLI_ARGS_EXIT_CODE K <> OPENAI_ERROR_EXIT_CODE K)
    by (intros E; apply Hn; simpl; auto).
  repeat split; auto.
  intros a' s' Hask' Hne' Htr'.
  destruct (translation_failure_is_fatal_run K a' s' Hask' Hne' Htr') as [t Ht].
  rewrite Ht, Hrun. cbn [snd]. intros E; injection E as E. congruence.
Qed.

Lemma empty_prompt_is_usage_error_witness :
  run sample_constants {| sw_command := "ask"; prompt := [" "; "  "] |}
    {| translate_reply := Ret "ls"; rounds := [] |} =
  ([EConfig; EPrint ByError "[bold red]Error[/]: Please provide a valid prompt."],
   Exit 1).
Proof.
  apply (empty_prompt_is_usage_error sample_constants
           {| sw_command := "ask"; prompt := [" "; "  "] |}
           {| translate_reply := Ret "ls"; rounds := [] |}).
  - unfold exit_codes_distinct. repeat constructor; simpl; lia.
  - reflexivity.
  - reflexivity.
Defined.

Lemma first_clause_total c :
  exists d msg, first_clause c openai_handlers = Some (d, msg)
                /\ In (d, msg) openai_handlers /\ issubclass c d = true.
Proof.
  destruct c; vm_compute; do 2 eexists; (split; [reflexivity|]);
    (split; [|reflexivity]); tauto.
Qed.

(** C8.  An [openai.error] exception of any class that leaves [main] is
    caught by [run]: after the trace so far (and after [asyncio.run] has
    dealt with a task still scheduled), the process prints the message of
    its kind and exits with [OPENAI_ERROR_EXIT_CODE], the same for every
    kind and, with distinct exit codes, not 0 and not one of the other two
    error codes.  The kinds are the eight classes with a clause of their own
    and "unknown" for [OpenAIError] and its other subclasses; each kind has
    the message written out below, and two kinds never share a message. *)
Theorem backend_errors_share_exit_code
  (K : constants) (cl : command_line) (s : script) (c : openai_error) :
  exit_codes_distinct K ->
  result (main K cl s) = Raise (OpenAI c) ->
  let message :=
    fun k : openai_error =>
      (match k with
       | APIError =>
           ": An error occurred while connecting to the OpenAI API. Please retry your request after a brief wait. The problem is on the side of the OpenAI. Visit https://status.openai.com for more information."
       | Timeout =>
           ": OpenAI API request timed out. Please retry your request after a brief wait."
       | APIConnectionError =>
           ": OpenAI API request failed to connect. Please check your internet connection and try again."
       | InvalidRequestError =>
           ": Your request was malformed or missing some required parameters, such as a token or an input."
       | AuthenticationError =>
           ": You are not authorized to access the OpenAI API. You may have entered the wrong API key. Your API key is invalid, expired or revoked. Please run [bold green]sw config[/] to set up the API key. Visit https://platform.openai.com/account/api-keys to get your API key."
       | PermissionError =>
           ": Your API key or token does not have the required scope or role to perform the requested action. Make sure your API key has the appropriate permissions for the action or model accessed."
       | RateLimitError =>
           ": OpenAI API request exceeded rate limit. If you are on a free plan, please upgrade to a paid plan for a better experience with Shell Whiz. Visit https://platform.openai.com/account/billing/limits for more information."
       | ServiceUnavailableError =>
           ": OpenAI API request failed due to a temporary server-side issue. Please retry your request after a brief wait. The problem is on the side of the OpenAI. Visit https://status.openai.com for more information."
       | OpenAIError | TryAgain | InvalidAPIType | SignatureVerificationError =>
           ": An unknown error occurred while connecting to the OpenAI API. Please retry your request after a brief wait."
       end)%string in
  let kind :=
    fun k : openai_error =>
      match k with
      | TryAgain | InvalidAPIType | SignatureVerificationError => OpenAIError
      | _ => k
      end in
  run K cl s =
    (trace (main K cl s) ++ abandon (OpenAI c) (trace (main K cl s))
     ++ [EPrint ByError (SW_ERROR K ++ message c)%string],
     Exit (OPENAI_ERROR_EXIT_CODE K))
  /\ (OPENAI_ERROR_EXIT_CODE K <> 0
      /\ OPENAI_ERROR_EXIT_CODE K <> INV_CLI_ARGS_EXIT_CODE K
      /\ OPENAI_ERROR_EXIT_CODE K <> SW_ERROR_EXIT_CODE K)
  /\ (forall k1 k2,
        kind k1 <> kind k2 ->
        (SW_ERROR K ++ message k1)%string <> (SW_ERROR K ++ message k2)%string).
Proof.
  intros Hd Hm message kind. split; [|split].
  - unfold run, trace. unfold result in Hm. rewrite Hm. subst message.
    destruct c;
      cbv [first_clause openai_handlers issubclass openai_error_eqb orb];
      cbv beta iota zeta; rewrite <- app_assoc; reflexivity.
  - unfold exit_codes_distinct in Hd.
    inversion Hd as [|? ? H0 Hd1]; subst.
    inversion Hd1 as [|? ? H1 Hd2]; subst.
    inversion Hd2 as [|? ? H2 _]; subst.
    repeat split; intros E.
    + apply H0. simpl. auto.
    + apply H1. simpl. auto.
    + apply H2. simpl. auto.
  - intros k1 k2 Hk E. apply string_app_inj_l in E.
    subst message kind. cbv beta in E, Hk.
    destruct k1, k2;
      solve [ exfalso; apply Hk; reflexivity | discriminate E ].
Qed.

Lemma backend_errors_share_exit_code_witness :
  run sample_constants {| sw_command := "ask"; prompt := ["list"; "files"] |}
    {| translate_reply := Ret "ls";
       rounds := [ {| edit_reply := Ret "";
                      danger_reply := Raise (OpenAI RateLimitError);
                      explanation_reply := Ret "lists files";
                      choice := "Exit"; text_input := "";
                      markup_error := false; action_cancelled := false;
                      text_interrupted := false |} ] |} =
  ([EConfig; ERequest (Translate "list files");
    EResponse (Translate "list files")]
   ++ command_block "ls"
   ++ [ECreateTask (Explain "ls"); ERequest (Danger "ls");
       EResponse (Danger "ls");
       ERequest (Explain "ls"); ETaskCancelled (Explain "ls");
       EPrint ByError
         "[bold red]Error[/]: OpenAI API request exceeded rate limit. If you are on a free plan, please upgrade to a paid plan for a better experience with Shell Whiz. Visit https://platform.openai.com/account/billing/limits for more information."],
   Exit 3).
Proof.
  apply (backend_errors_share_exit_code sample_constants
           {| sw_command := "ask"; prompt := ["list"; "files"] |}
           {| translate_reply := Ret "ls";
              rounds := [ {| edit_reply := Ret "";
                             danger_reply := Raise (OpenAI RateLimitError);
                             explanation_reply := Ret "lists files";
                             choice := "Exit"; text_input := "";
                             markup_error := false; action_cancelled := false;
                             text_interrupted := false |} ] |}
           RateLimitError).
  - unfold exit_codes_distinct. repeat constructor; simpl; lia.
  - reflexivity.
Defined.

(** C9.  In every pass the explanation task is created before the classifier
    is called, but the classifier call is a plain call: the event loop does
    not get control before line 94, so the trace of the step is the command
    block, the task creation, the whole danger request with its response,
    and only then (after the warning) the explanation request.  No two
    backend requests are ever outstanding together. *)
Theorem explanation_request_follows_danger_check
  (K : constants) (r : round) (st : locals) :
  (exists t,
     trace (assess_step K r st) =
     command_block (shell_command st)
     ++ [ECreateTask (Explain (shell_command st));
         ERequest (Danger (shell_command st));
         EResponse (Danger (shell_command st))]
     ++ t
     /\ (t = []
         \/ exists t',
              t = warning_of r
                  ++ [ESpinnerStart (SW_WAIT_MSG K) (SW_WAIT_MSG_COLOR K);
                      ERequest (Explain (shell_command st));
                      EResponse (Explain (shell_command st))]
                  ++ t'))
  /\ overlap 0 (trace (assess_step K r st)) = false.
Proof.
  split; [|apply explanation_passes_one_at_a_time].
  rewrite assess_step_eq.
  destruct (after_classifier r st) as [st1|e].
  - destruct (warning_fails r); unfold trace; cbn [fst].
    + exists []. split; [reflexivity | now left].
    + eexists. split; [reflexivity|]. right. eexists. reflexivity.
  - unfold trace; cbn [fst]. exists []. split; [reflexivity | now left].
Qed.

(** The same on a concrete pass: the command is "ls -la", the classifier
    answers "not dangerous" and the explanation arrives. *)
Example ls_pass_requests_in_sequence :
  trace (assess_step sample_constants
           {| edit_reply := Ret ""; danger_reply := Ret (false, "");
              explanation_reply := Ret "lists files"; choice := "Exit";
              text_input := "";
              markup_error := false; action_cancelled := false;
              text_interrupted := false |}
           (initial "ls -la")) =
  command_block "ls -la"
  ++ [ECreateTask (Explain "ls -la");
      ERequest (Danger "ls -la"); EResponse (Danger "ls -la");
      ESpinnerStart "Wait, Shell Whiz is thinking" "green";
      ERequest (Explain "ls -la"); EResponse (Explain "ls -la");
      ESpinnerStop]
  ++ explanation_block "lists files".
Proof. reflexivity. Qed.

(** Reading [dangerous_consequences] before any assignment would raise. *)
Example warn_step_unbound (r : round) :
  warn_step r
    {| first_run := false; edit_prompt := ""; shell_command := "ls";
       is_dangerous := Some true; dangerous_consequences := None |} =
  ([], Raise (UnboundLocalError "dangerous_consequences")).
Proof. reflexivity. Qed.

(** C10.  After the classifier step, the warning step reads
    [dangerous_consequences] exactly when the classifier returned a
    dangerous verdict in this pass, and then it is the consequences that
    verdict came with: they are printed as the warning, unless [rich]
    rejects the markup.  In every other case the step does nothing.  When the
    classifier raised [ShellWhizWarningError] the variable is left as it
    was, possibly unbound, and the warning step neither reads it nor
    raises. *)
Theorem consequences_read_only_when_dangerous
  (r : round) (st st1 : locals) :
  result (classify_step r st) = Ret st1 ->
  warn_step r st1 =
    match danger_reply r with
    | Ret (true, c) =>
        if markup_error r then ([], Raise MarkupError)
        else (warning_block c, Ret tt)
    | _ => ([], Ret tt)
    end
  /\ (forall c, danger_reply r = Ret (true, c) ->
                dangerous_consequences st1 = Some c)
  /\ (danger_reply r = Raise ShellWhizWarningError ->
      dangerous_consequences st1 = dangerous_consequences st
      /\ warn_step r st1 = ([], Ret tt)).
Proof.
  rewrite classify_step_eq. unfold result; cbn [snd]. intros Hc.
  pose proof (warn_step_after_classifier r st st1 Hc) as Hw.
  unfold warning_fails, warning_of, verdict in Hw.
  split; [|split].
  - rewrite Hw. destruct (danger_reply r) as [[[] c]|e]; reflexivity.
  - intros c Hd. unfold after_classifier in Hc. rewrite Hd in Hc.
    injection Hc as <-. reflexivity.
  - intros Hd. unfold after_classifier in Hc. rewrite Hd in Hc, Hw.
    injection Hc as <-. split; [reflexivity | exact Hw].
Qed.

Lemma consequences_read_only_when_dangerous_witness :
  warn_step
    {| edit_reply := Ret ""; danger_reply := Raise ShellWhizWarningError;
       explanation_reply := Ret "removes everything"; choice := "Exit";
       text_input := ""; markup_error := false; action_cancelled := false;
       text_interrupted := false |}
    (set_is_dangerous false (initial "rm -rf /")) = ([], Ret tt).
Proof.
  apply (consequences_read_only_when_dangerous
           {| edit_reply := Ret ""; danger_reply := Raise ShellWhizWarningError;
              explanation_reply := Ret "removes everything"; choice := "Exit";
              text_input := ""; markup_error := false;
              action_cancelled := false; text_interrupted := false |}
           (initial "rm -rf /") (set_is_dangerous false (initial "rm -rf /")));
    reflexivity.
Defined.

(** ** Further properties: strings *)

Lemma string_app_nil_r (s : string) : (s ++ "")%string = s.
Proof. induction s as [|c s IH]; simpl; [reflexivity | now rewrite IH]. Qed.

Lemma string_app_assoc (a b c : string) :
  ((a ++ b) ++ c)%string = (a ++ (b ++ c))%string.
Proof. induction a as [|x a IH]; simpl; [reflexivity | now rewrite IH]. Qed.

Lemma all_space_app a b : all_space (a ++ b) = all_space a && all_space b.
Proof.
  induction a as [|c a IH]; simpl; [reflexivity|].
  rewrite IH. now rewrite andb_assoc.
Qed.

Lemma lstrip_empty_iff s : PyStr.lstrip s = "" <-> all_space s = true.
Proof.
  induction s as [|c s IH]; simpl.
  - tauto.
  - destruct (PyStr.is_space c); simpl; [exact IH|].
    split; discriminate.
Qed.

Lemma rstrip_empty_iff s : PyStr.rstrip s = "" <-> all_space s = true.
Proof.
  induction s as [|c s IH]; simpl.
  - tauto.
  - destruct (PyStr.rstrip s) as [|d r].
    + destruct (PyStr.is_space c); simpl.
      * split; [intros _; now apply IH | reflexivity].
      * split; discriminate.
    + split; [discriminate|].
      intros H. apply andb_true_iff in H. destruct H as [_ H].
      apply IH in H. discriminate.
Qed.

Lemma all_space_lstrip s : all_space (PyStr.lstrip s) = all_space s.
Proof.
  induction s as [|c s IH]; simpl; [reflexivity|].
  destruct (PyStr.is_space c) eqn:E; simpl; [exact IH|].
  now rewrite E.
Qed.

Lemma strip_empty_iff s : PyStr.strip s = "" <-> all_space s = true.
Proof.
  unfold PyStr.strip. rewrite rstrip_empty_iff, all_space_lstrip. tauto.
Qed.

Lemma all_space_join words :
  all_space (PyStr.join " " words) = forallb all_space words.
Proof.
  unfold PyStr.join.
  induction words as [|w ws IH]; [reflexivity|].
  destruct ws as [|w' ws].
  - simpl. now rewrite andb_true_r.
  - change (String.concat " " (w :: w' :: ws))
      with (w ++ " " ++ String.concat " " (w' :: ws))%string.
    rewrite !all_space_app, IH. reflexivity.
Qed.

Lemma rstrip_idempotent s : PyStr.rstrip (PyStr.rstrip s) = PyStr.rstrip s.
Proof.
  induction s as [|c s IH]; simpl; [reflexivity|].
  destruct (PyStr.rstrip s) as [|d r] eqn:E.
  - destruct (PyStr.is_space c) eqn:Ec; simpl; [reflexivity|].
    now rewrite Ec.
  - change (PyStr.rstrip (String c (String d r)))
      with (match PyStr.rstrip (String d r) with
            | "" => if PyStr.is_space c then "" else String c ""
            | String x y => String c (String x y)
            end).
    rewrite IH. reflexivity.
Qed.

Lemma lstrip_starts_clean s : starts_clean (PyStr.lstrip s) = true.
Proof.
  induction s as [|c s IH]; simpl; [reflexivity|].
  destruct (PyStr.is_space c) eqn:E; [exact IH|]. simpl. now rewrite E.
Qed.

Lemma lstrip_clean s : starts_clean s = true -> PyStr.lstrip s = s.
Proof.
  destruct s as [|c s]; simpl; [reflexivity|].
  intros H. apply negb_true_iff in H. now rewrite H.
Qed.

Lemma rstrip_starts_clean s :
  starts_clean s = true -> starts_clean (PyStr.rstrip s) = true.
Proof.
  destruct s as [|c s]; simpl; [reflexivity|].
  intros H. apply negb_true_iff in H. rewrite H.
  destruct (PyStr.rstrip s); simpl; now rewrite H.
Qed.

Lemma strip_idempotent s : PyStr.strip (PyStr.strip s) = PyStr.strip s.
Proof.
  unfold PyStr.strip.
  rewrite (lstrip_clean (PyStr.rstrip (PyStr.lstrip s))).
  - apply rstrip_idempotent.
  - apply rstrip_starts_clean, lstrip_starts_clean.
Qed.

Lemma rstrip_ends_clean s : ends_clean (PyStr.rstrip s) = true.
Proof.
  induction s as [|c s IH]; simpl; [reflexivity|].
  destruct (PyStr.rstrip s) as [|d r].
  - destruct (PyStr.is_space c) eqn:E; simpl; [reflexivity | now rewrite E].
  - exact IH.
Qed.

Lemma concat_empty_cons x l :
  String.concat "" (x :: l) = (x ++ String.concat "" l)%string.
Proof.
  destruct l as [|y l]; simpl; [now rewrite string_app_nil_r | reflexivity].
Qed.

Lemma has_linebreak_app a b :
  has_linebreak (a ++ b) = has_linebreak a || has_linebreak b.
Proof.
  induction a as [|c a IH]; simpl; [reflexivity|].
  rewrite IH. now rewrite orb_assoc.
Qed.

Lemma LF_is_linebreak : PyStr.is_linebreak PyStr.LF = true.
Proof. reflexivity. Qed.

Lemma splitlines_from_facts n :
  forall s cur,
    (String.length s <= n)%nat ->
    String.concat "" (PyStr.splitlines_from cur s) =
      (cur ++ remove_linebreaks s)%string
    /\ (has_linebreak cur = false ->
        Forall (fun l => has_linebreak l = false) (PyStr.splitlines_from cur s)).
Proof.
  induction n as [|n IH]; intros s cur Hlen.
  - destruct s; [|simpl in Hlen; lia]. simpl.
    destruct (String.eqb_spec cur "") as [->|N]; simpl.
    + split; [reflexivity | constructor].
    + split; [now rewrite string_app_nil_r | intros H; repeat constructor; exact H].
  - destruct s as [|c s].
    + simpl. destruct (String.eqb_spec cur "") as [->|N]; simpl.
      * split; [reflexivity | constructor].
      * split; [now rewrite string_app_nil_r
               | intros H; repeat constructor; exact H].
    + simpl in Hlen. cbn [PyStr.splitlines_from remove_linebreaks].
      destruct (PyStr.is_linebreak c) eqn:Ec.
      * destruct s as [|c' s'].
        -- simpl. split; [now rewrite string_app_nil_r
                         | intros H; repeat constructor; exact H].
        -- destruct (Ascii.eqb c PyStr.CR && Ascii.eqb c' PyStr.LF) eqn:Ecr.
           ++ apply andb_true_iff in Ecr. destruct Ecr as [_ Elf].
              apply Ascii.eqb_eq in Elf. subst c'.
              destruct (IH s' "") as [Hc Hf]; [simpl in Hlen; lia|].
              rewrite concat_empty_cons, Hc.
              cbn [remove_linebreaks]. rewrite LF_is_linebreak.
              split; [reflexivity|].
              intros H. constructor; [exact H | now apply Hf].
           ++ destruct (IH (String c' s') "") as [Hc Hf]; [lia|].
              rewrite concat_empty_cons, Hc.
              split; [reflexivity|].
              intros H. constructor; [exact H | now apply Hf].
      * destruct (IH s (cur ++ String c "")%string) as [Hc Hf]; [lia|].
        rewrite Hc. split.
        -- rewrite string_app_assoc. reflexivity.
        -- intros H. apply Hf. rewrite has_linebreak_app, H. simpl.
           now rewrite Ec.
Qed.

Lemma splitlines_concat s :
  String.concat "" (PyStr.splitlines s) = remove_linebreaks s.
Proof.
  unfold PyStr.splitlines.
  destruct (splitlines_from_facts (String.length s) s "") as [H _]; [lia|].
  exact H.
Qed.

Lemma splitlines_no_linebreak s :
  Forall (fun l => has_linebreak l = false) (PyStr.splitlines s).
Proof.
  unfold PyStr.splitlines.
  destruct (splitlines_from_facts (String.length s) s "") as [_ H]; [lia|].
  now apply H.
Qed.

(** ** Further properties: the shape of traces *)

Lemma loop_cons_trace K r rs st :
  trace (loop K (r :: rs) st) =
  trace (iteration K r st)
  ++ match result (iteration K r st) with
     | Ret (Some st') => trace (loop K rs st')
     | _ => []
     end.
Proof.
  cbn [loop]. unfold bind, trace, result.
  destruct (snd (iteration K r st)) as [[st'|]|e]; cbn [fst];
    [reflexivity | reflexivity | now rewrite app_nil_r].
Qed.

Lemma loop_cons_result K r rs st :
  result (loop K (r :: rs) st) =
  match result (iteration K r st) with
  | Ret (Some st') => result (loop K rs st')
  | Ret None => Ret Returned
  | Raise e => Raise e
  end.
Proof.
  cbn [loop]. unfold bind, result.
  destruct (snd (iteration K r st)) as [[st'|]|e]; reflexivity.
Qed.

Lemma iteration_result K r st :
  result (iteration K r st) =
  match result (revise_step r st) with
  | Ret st1 =>
      match result (assess_step K r st1) with
      | Ret st2 => result (choice_step r st2)
      | Raise e => Raise e
      end
  | Raise e => Raise e
  end.
Proof.
  unfold iteration, bind, result.
  destruct (snd (revise_step r st)); cbn [snd]; [|reflexivity].
  destruct (snd (assess_step K r a)); reflexivity.
Qed.

(** A property of traces that holds of the empty trace, of every pass and
    of concatenations holds of the whole loop. *)
Lemma loop_trace_ind K (P : list event -> Prop) :
  P [] ->
  (forall t1 t2, P t1 -> P t2 -> P (t1 ++ t2)) ->
  (forall r st, P (trace (iteration K r st))) ->
  forall rs st, P (trace (loop K rs st)).
Proof.
  intros Hnil Happ Hit. induction rs as [|r rs IH]; intros st.
  - exact Hnil.
  - rewrite loop_cons_trace. apply Happ; [apply Hit|].
    destruct (result (iteration K r st)) as [[st'|]|e]; auto.
Qed.

Lemma pass_event_command_block c : forallb pass_event (command_block c) = true.
Proof.
  unfold command_block. cbn [forallb pass_event andb].
  rewrite forallb_app. cbn [forallb pass_event andb].
  rewrite andb_true_r.
  induction (PyStr.splitlines c) as [|l ls IH]; simpl; auto.
Qed.

Lemma pass_event_revise r st :
  forallb pass_event (trace (revise_step r st)) = true.
Proof.
  destruct (first_run st) eqn:F.
  - rewrite revise_step_first by assumption. reflexivity.
  - rewrite revise_step_later by assumption.
    destruct (edit_prompt st =? "")%string; reflexivity.
Qed.

Lemma pass_event_assess K r st :
  forallb pass_event (trace (assess_step K r st)) = true.
Proof.
  apply (assess_trace_cases K r st (fun t => forallb pass_event t = true)).
  - rewrite forallb_app, pass_event_command_block. reflexivity.
  - intros w x [-> | [c ->]] [-> | [e ->]];
      rewrite forallb_app, pass_event_command_block; reflexivity.
Qed.

Lemma pass_event_choice r st :
  forallb pass_event (trace (choice_step r st)) = true.
Proof. unfold trace. choice_cases r; reflexivity. Qed.

Lemma pass_event_iteration K r st :
  forallb pass_event (trace (iteration K r st)) = true.
Proof.
  rewrite iteration_trace, forallb_app, pass_event_revise.
  destruct (result (revise_step r st)) as [st1|e]; [|reflexivity].
  rewrite forallb_app, pass_event_assess.
  destruct (result (assess_step K r st1)) as [st2|e]; [|reflexivity].
  now rewrite pass_event_choice.
Qed.

Lemma pass_event_loop K rs st :
  forallb pass_event (trace (loop K rs st)) = true.
Proof.
  apply (loop_trace_ind K (fun t => forallb pass_event t = true)).
  - reflexivity.
  - intros t1 t2 H1 H2. now rewrite forallb_app, H1, H2.
  - apply pass_event_iteration.
Qed.

Lemma shell_whiz_ask_eq K p s :
  shell_whiz_ask K p s =
  match translate_reply s with
  | Ret c =>
      ([ERequest (Translate p); EResponse (Translate p)]
       ++ trace (loop K (rounds s) (initial c)),
       result (loop K (rounds s) (initial c)))
  | Raise ShellWhizTranslationError =>
      ([ERequest (Translate p); EResponse (Translate p);
        EPrint ByError
          (SW_ERROR K ++ ": Shell Whiz doesn't know how to do this.")%string],
       Raise (SystemExit (Some (SW_ERROR_EXIT_CODE K))))
  | Raise e => ([ERequest (Translate p); EResponse (Translate p)], Raise e)
  end.
Proof.
  unfold shell_whiz_ask, try_except, call, bind. cbn [fst snd].
  destruct (translate_reply s) as [c|e]; cbn [fst snd]; [reflexivity|].
  destruct e; reflexivity.
Qed.

Lemma main_ask_eq K (a : args) s :
  sw_command a = "ask" ->
  PyStr.strip (PyStr.join " " (prompt a)) <> "" ->
  main K a s =
  (EConfig :: fst (shell_whiz_ask K (PyStr.strip (PyStr.join " " (prompt a))) s),
   snd (shell_whiz_ask K (PyStr.strip (PyStr.join " " (prompt a))) s)).
Proof.
  intros Hask Hne. unfold main, run_ai_assistant. rewrite Hask.
  cbn [String.eqb Ascii.eqb Bool.eqb].
  destruct (String.eqb_spec (PyStr.strip (PyStr.join " " (prompt a))) "")
    as [E|_]; [contradiction|].
  unfold bind, emit. cbn [fst snd app].
  destruct (snd (shell_whiz_ask K _ s)); reflexivity.
Qed.

Lemma main_cases K (a : args) s :
  main K a s = ([EUpdateConfig], Ret Returned)
  \/ main K a s = ([], Ret Returned)
  \/ (sw_command a = "ask"
      /\ PyStr.strip (PyStr.join " " (prompt a)) = ""
      /\ main K a s =
         ([EConfig;
           EPrint ByError (SW_ERROR K ++ ": Please provide a valid prompt.")%string],
          Raise (SystemExit (Some (INV_CLI_ARGS_EXIT_CODE K)))))
  \/ (sw_command a = "ask"
      /\ PyStr.strip (PyStr.join " " (prompt a)) <> ""
      /\ main K a s =
         (EConfig
          :: fst (shell_whiz_ask K (PyStr.strip (PyStr.join " " (prompt a))) s),
          snd (shell_whiz_ask K (PyStr.strip (PyStr.join " " (prompt a))) s))).
Proof.
  destruct (String.eqb_spec (sw_command a) "config") as [Ec|Nc].
  - left. unfold main. rewrite Ec. reflexivity.
  - destruct (String.eqb_spec (sw_command a) "ask") as [Ea|Na].
    + right; right.
      destruct (String.eqb_spec (PyStr.strip (PyStr.join " " (prompt a))) "")
        as [E|N].
      * left. repeat split; auto.
        unfold main, run_ai_assistant. rewrite Ea.
        cbn [String.eqb Ascii.eqb Bool.eqb]. rewrite E. reflexivity.
      * right. repeat split; auto. now apply main_ask_eq.
    + right; left. unfold main.
      destruct (String.eqb_spec (sw_command a) "config"); [contradiction|].
      destruct (String.eqb_spec (sw_command a) "ask"); [contradiction|].
      reflexivity.
Qed.

Lemma scheduled_task_created t : forall p c,
  scheduled_task p t = Some c -> p = Some c \/ In (ECreateTask c) t.
Proof.
  induction t as [|e t IH]; intros p c H; [now left|].
  destruct e; cbn [scheduled_task] in H;
    try (destruct (IH _ _ H) as [E|E]; [now left | right; now right]).
  - destruct (IH _ _ H) as [E|E]; [|right; now right].
    injection E as <-. right. now left.
  - destruct p as [d|].
    + destruct (backend_call_eqb c0 d);
        (destruct (IH _ _ H) as [E|E];
         [try discriminate; now left | right; now right]).
    + destruct (IH _ _ H) as [E|E]; [discriminate | right; now right].
Qed.

(** Every task of a run is an explanation task. *)
Lemma main_creates_explanations K (a : args) s c :
  In (ECreateTask c) (fst (main K a s)) ->
  sw_command a = "ask"
  /\ PyStr.strip (PyStr.join " " (prompt a)) <> ""
  /\ exists cmd, c = Explain cmd.
Proof.
  intros Hin.
  destruct (main_cases K a s) as [E|[E|[(_ & _ & E)|(Hask & Hne & E)]]];
    rewrite E in Hin; cbn [fst] in Hin.
  - simpl in Hin. destruct Hin as [H|[]]; discriminate.
  - contradiction.
  - simpl in Hin. destruct Hin as [H|[H|[]]]; discriminate.
  - split; [exact Hask|]. split; [exact Hne|].
    rewrite shell_whiz_ask_eq in Hin.
    destruct Hin as [H|Hin]; [discriminate|].
    assert (Hl : forall t, forallb pass_event t = true ->
                 In (ECreateTask c) t -> exists cmd, c = Explain cmd).
    { intros t Ht Hi. rewrite forallb_forall in Ht. specialize (Ht _ Hi).
      destruct c; try discriminate. eauto. }
    destruct (translate_reply s) as [c0|e]; cbn [fst] in Hin.
    + destruct Hin as [H|[H|Hin]]; try discriminate.
      exact (Hl _ (pass_event_loop K (rounds s) (initial c0)) Hin).
    + destruct e; simpl in Hin; intuition discriminate.
Qed.

(** What [run] adds to the trace of [main]: the request of a task that was
    still scheduled and its cancellation, and one closing line. *)
Lemma run_trace_tail K (a : args) s :
  exists x,
    fst (run K a s) = fst (main K a s) ++ x
    /\ forallb closing_event x = true
    /\ (forall c, In (ERequest c) x -> In (ECreateTask c) (fst (main K a s))).
Proof.
  assert (Hab : forall e,
            forallb closing_event (abandon e (fst (main K a s))) = true
            /\ forall c, In (ERequest c) (abandon e (fst (main K a s))) ->
                         In (ECreateTask c) (fst (main K a s))).
  { intros e. unfold abandon.
    destruct (scheduled_task None (fst (main K a s))) as [c|] eqn:Hs;
      [|split; [reflexivity | contradiction]].
    destruct (scheduled_task_created _ _ _ Hs) as [E|Hin]; [discriminate|].
    destruct (main_creates_explanations K a s c Hin) as (_ & _ & cmd & ->).
    destruct (is_Exception e); split; try reflexivity.
    - intros c [H|[H|[]]]; [|discriminate]. now injection H as <-.
    - intros c [H|[]]. discriminate. }
  unfold run.
  destruct (snd (main K a s)) as [[|st]|e].
  - exists []. rewrite app_nil_r. repeat split. contradiction.
  - exists []. rewrite app_nil_r. repeat split. contradiction.
  - destruct (Hab e) as [Hc Hr].
    assert (Hplain : exists x,
              fst (main K a s) ++ abandon e (fst (main K a s)) =
              fst (main K a s) ++ x
              /\ forallb closing_event x = true
              /\ (forall c, In (ERequest c) x ->
                            In (ECreateTask c) (fst (main K a s)))) by eauto.
    assert (Hline : forall who text,
              (who = ByError \/ who = ByNotice) ->
              exists x,
                (fst (main K a s) ++ abandon e (fst (main K a s)))
                ++ [EPrint who text] = fst (main K a s) ++ x
                /\ forallb closing_event x = true
                /\ (forall c, In (ERequest c) x ->
                              In (ECreateTask c) (fst (main K a s)))).
    { intros who text Hw.
      exists (abandon e (fst (main K a s)) ++ [EPrint who text]).
      split; [now rewrite app_assoc|]. split.
      - rewrite forallb_app, Hc. destruct Hw as [-> | ->]; reflexivity.
      - intros c Hin. apply in_app_or in Hin.
        destruct Hin as [Hin|[Hin|[]]]; [auto | discriminate]. }
    destruct e; cbn [fst]; try exact Hplain.
    + destruct (first_clause c openai_handlers) as [[d msg]|]; cbn [fst];
        [apply Hline; now left | exact Hplain].
    + apply Hline. now right.
Qed.


Lemma filter_none_of {A} (p q : A -> bool) (t : list A) :
  (forall e, p e = true -> q e = false) ->
  forallb p t = true -> filter q t = [].
Proof.
  intros H. induction t as [|e t IH]; simpl; [reflexivity|].
  intros Hf. apply andb_true_iff in Hf. destruct Hf as [He Ht].
  rewrite (H e He). auto.
Qed.

Lemma pass_event_not_translate e :
  pass_event e = true -> is_translate_request e = false.
Proof. destruct e as [[]| | |[]| | | | | | | | | | | |]; simpl; congruence. Qed.

Lemma closing_event_not_translate e :
  closing_event e = true -> is_translate_request e = false.
Proof. destruct e as [[]| | |[]| | | | | | | | | | | |]; simpl; congruence. Qed.

(** X1.  In an [ask] run whose joined prompt is not blank, the translator is
    asked once, right after the configuration check and before anything
    else, with the joined and stripped prompt; that prompt is a fixed point
    of [strip] and neither starts nor ends with white space. *)
Theorem translator_asked_once_with_stripped_prompt
  (K : constants) (a : args) (s : script) :
  sw_command a = "ask" ->
  PyStr.strip (PyStr.join " " (prompt a)) <> "" ->
  let p := PyStr.strip (PyStr.join " " (prompt a)) in
  PyStr.strip p = p
  /\ starts_clean p = true
  /\ ends_clean p = true
  /\ exists t,
       fst (run K a s) =
       [EConfig; ERequest (Translate p); EResponse (Translate p)] ++ t
       /\ filter is_translate_request t = [].
Proof.
  intros Hask Hne p.
  split; [apply strip_idempotent|].
  split; [apply rstrip_starts_clean, lstrip_starts_clean|].
  split; [apply rstrip_ends_clean|].
  destruct (run_trace_tail K a s) as (x & Hx & Hshape).
  rewrite Hx, (main_ask_eq K a s Hask Hne). fold p. cbn [fst].
  rewrite shell_whiz_ask_eq.
  assert (Hxf : filter is_translate_request x = []).
  { apply (filter_none_of closing_event);
      [apply closing_event_not_translate | apply Hshape]. }
  destruct (translate_reply s) as [c|e]; cbn [fst].
  - eexists. split; [cbn [app]; reflexivity|].
    rewrite filter_app, Hxf, app_nil_r.
    apply (filter_none_of pass_event); [apply pass_event_not_translate|].
    apply pass_event_loop.
  - destruct e; cbn [fst]; eexists; (split; [cbn [app]; reflexivity|]);
      cbn [filter is_translate_request]; try rewrite Hxf; reflexivity.
Qed.

Lemma translator_asked_once_with_stripped_prompt_witness :
  PyStr.strip "list files" = "list files".
Proof.
  apply (translator_asked_once_with_stripped_prompt sample_constants
           {| sw_command := "ask"; prompt := [" list"; "files "] |}
           {| translate_reply := Ret "ls"; rounds := [] |}).
  - reflexivity.
  - vm_compute. discriminate.
Defined.

(** X2.  For [ask], the usage error is raised exactly when every word of the
    prompt consists of white space only (no words at all included):
    then the run is the configuration check and the usage message, with
    [INV_CLI_ARGS_EXIT_CODE]; with any other word list the translator is
    asked. *)
Theorem usage_error_iff_blank_words (K : constants) (a : args) (s : script) :
  sw_command a = "ask" ->
  (forallb all_space (prompt a) = true ->
   run K a s =
     ([EConfig;
       EPrint ByError (SW_ERROR K ++ ": Please provide a valid prompt.")%string],
      Exit (INV_CLI_ARGS_EXIT_CODE K)))
  /\ (forallb all_space (prompt a) = false ->
      exists t,
        fst (run K a s) =
        EConfig
        :: ERequest (Translate (PyStr.strip (PyStr.join " " (prompt a)))) :: t).
Proof.
  intros Hask. split; intros Hb.
  - assert (He : PyStr.strip (PyStr.join " " (prompt a)) = "").
    { apply strip_empty_iff. now rewrite all_space_join. }
    unfold run, main, run_ai_assistant. rewrite Hask.
    cbn [String.eqb Ascii.eqb Bool.eqb]. rewrite He. reflexivity.
  - assert (Hne : PyStr.strip (PyStr.join " " (prompt a)) <> "").
    { intros E. apply strip_empty_iff in E. rewrite all_space_join in E.
      congruence. }
    destruct (run_trace_tail K a s) as (x & Hx & _).
    rewrite Hx, (main_ask_eq K a s Hask Hne). cbn [fst].
    rewrite shell_whiz_ask_eq.
    destruct (translate_reply s) as [c|e]; [|destruct e]; cbn [fst app];
      eexists; reflexivity.
Qed.

Lemma usage_error_iff_blank_words_witness :
  exists t,
    fst (run sample_constants
           {| sw_command := "ask"; prompt := [" "; "ls"; ""] |}
           {| translate_reply := Raise ShellWhizTranslationError;
              rounds := [] |}) =
    EConfig :: ERequest (Translate "ls") :: t.
Proof.
  apply (usage_error_iff_blank_words sample_constants
           {| sw_command := "ask"; prompt := [" "; "ls"; ""] |}
           {| translate_reply := Raise ShellWhizTranslationError;
              rounds := [] |});
    reflexivity.
Defined.

(** ** Further properties: what is executed, edited and revised *)





(** A completed assessment, spelled out. *)
Lemma assess_step_completed K r st st2 :
  result (assess_step K r st) = Ret st2 ->
  exists e,
    explanation_reply r = Ret e
    /\ shell_command st2 = shell_command st
    /\ first_run st2 = first_run st
    /\ trace (assess_step K r st) =
       command_block (shell_command st) ++ classify_events (shell_command st)
       ++ warning_of r ++ await_events K (shell_command st)
       ++ explanation_block e.
Proof.
  intros H. pose proof (assess_step_locals K r st st2 H) as Hc.
  destruct (after_classifier_command r st st2 Hc) as (Hcmd & Hfr & _).
  rewrite assess_step_eq in H |- *. rewrite Hc in H |- *.
  destruct (warning_fails r); [discriminate|].
  unfold result, trace in *; cbn [fst snd] in *.
  destruct (explanation_reply r) as [e|x]; [|discriminate].
  exists e. auto.
Qed.







Lemma iteration_completed K r st st' :
  result (iteration K r st) = Ret (Some st') ->
  exists st1 st2,
    result (revise_step r st) = Ret st1
    /\ result (assess_step K r st1) = Ret st2
    /\ result (choice_step r st2) = Ret (Some st').
Proof.
  rewrite iteration_result.
  destruct (result (revise_step r st)) as [st1|e] eqn:H1; [|discriminate].
  destruct (result (assess_step K r st1)) as [st2|e] eqn:H2; [|discriminate].
  intros H. exists st1, st2. auto.
Qed.

Lemma choice_step_next r st st' :
  result (choice_step r st) = Ret (Some st') ->
  first_run st' = first_run st
  /\ edit_prompt st' = next_edit_prompt r
  /\ shell_command st' =
     if (choice r =? "Edit manually")%string then text_input r
     else shell_command st.
Proof.
  unfold choice_step, next_edit_prompt, result.
  destruct (action_cancelled r); [discriminate|].
  destruct (String.eqb_spec (choice r) "Exit") as [E|_]; [discriminate|].
  destruct (String.eqb_spec (choice r) "Revise query") as [E|_].
  { rewrite E. destruct (text_interrupted r); [discriminate|].
    cbn. intros H; injection H as <-. auto. }
  destruct (String.eqb_spec (choice r) "Edit manually") as [E|_].
  { destruct (text_interrupted r); [discriminate|].
    cbn. intros H; injection H as <-. auto. }
  destruct (String.eqb_spec (choice r) "Run this command") as [E|_];
    [discriminate|].
  cbn. intros H; injection H as <-. auto.
Qed.

(** A completed choice step answered both prompts. *)
Lemma choice_step_answered r st st' :
  result (choice_step r st) = Ret (Some st') ->
  action_cancelled r = false
  /\ (choice r = "Revise query" \/ choice r = "Edit manually" ->
      text_interrupted r = false).
Proof.
  unfold choice_step, result.
  destruct (action_cancelled r); [discriminate|].
  intros H. split; [reflexivity|]. intros [E|E]; rewrite E in H;
    cbn in H; destruct (text_interrupted r); (reflexivity || discriminate).
Qed.

(** What a completed pass hands to the next one. *)
Lemma iteration_next K r st st' :
  result (iteration K r st) = Ret (Some st') ->
  first_run st' = false
  /\ edit_prompt st' = next_edit_prompt r
  /\ exists st1,
       result (revise_step r st) = Ret st1
       /\ shell_command st' =
          if (choice r =? "Edit manually")%string then text_input r
          else shell_command st1.
Proof.
  intros H. destruct (iteration_completed K r st st' H)
    as (st1 & st2 & H1 & H2 & H3).
  destruct (assess_step_completed K r st1 st2 H2) as (_ & _ & Hcmd & Hfr & _).
  destruct (choice_step_next r st2 st' H3) as (F & Ep & Sc).
  pose proof (revise_step_clears_first_run r st st1 H1) as F1.
  split; [congruence|]. split; [exact Ep|].
  exists st1. split; [exact H1|]. now rewrite <- Hcmd.
Qed.

(** A pass after the first: its trace, from the edit step on. *)
Lemma later_pass_trace K r st :
  first_run st = false ->
  trace (iteration K r st) =
  (if (edit_prompt st =? "")%string then []
   else [ERequest (Edit (shell_command st) (edit_prompt st));
         EResponse (Edit (shell_command st) (edit_prompt st))])
  ++ match result (revise_step r st) with
     | Ret st1 =>
         trace (assess_step K r st1)
         ++ match result (assess_step K r st1) with
            | Ret st2 => trace (choice_step r st2)
            | Raise _ => []
            end
     | Raise _ => []
     end.
Proof.
  intros F. rewrite iteration_trace. f_equal.
  rewrite revise_step_later by assumption.
  destruct (edit_prompt st =? "")%string; reflexivity.
Qed.

Lemma filter_edit_rest K r (x : res locals) :
  filter is_edit_request
    match x with
    | Ret st1 =>
        trace (assess_step K r st1)
        ++ match result (assess_step K r st1) with
           | Ret st2 => trace (choice_step r st2)
           | Raise _ => []
           end
    | Raise _ => []
    end = [].
Proof. destruct x; [apply filter_edit_after_revise | reflexivity]. Qed.

(** X4.  The editor is asked in a pass exactly when the pass before it ended
    with "Revise query" and a non-empty instruction, and then once, with the
    command that pass rendered and that instruction; an instruction is never
    applied twice.  In the first pass the editor is never asked. *)
Theorem editor_asked_iff_revision_pending
  (K : constants) (r1 r2 : round) (st st' : locals) :
  result (iteration K r1 st) = Ret (Some st') ->
  filter is_edit_request (trace (iteration K r2 st')) =
    (if (choice r1 =? "Revise query")%string
        && negb (text_input r1 =? "")%string
     then [ERequest (Edit (shell_command st') (text_input r1))]
     else [])
  /\ (exists st1, result (revise_step r1 st) = Ret st1
                  /\ (choice r1 <> "Edit manually" ->
                      shell_command st' = shell_command st1))
  /\ forall r c, filter is_edit_request (trace (iteration K r (initial c))) = [].
Proof.
  intros H. destruct (iteration_next K r1 st st' H) as (F & Ep & st1 & H1 & Sc).
  split; [|split].
  - rewrite later_pass_trace by assumption.
    rewrite filter_app, filter_edit_rest, app_nil_r, Ep.
    unfold next_edit_prompt.
    destruct (choice r1 =? "Revise query")%string; [|reflexivity].
    destruct (text_input r1 =? "")%string; reflexivity.
  - exists st1. split; [exact H1|]. intros N.
    destruct (String.eqb_spec (choice r1) "Edit manually"); [contradiction|].
    exact Sc.
  - intros r c. rewrite iteration_trace.
    rewrite revise_step_first by reflexivity.
    unfold trace at 1, result at 1. cbn [fst snd app].
    apply filter_edit_after_revise.
Qed.

Lemma editor_asked_iff_revision_pending_witness :
  filter is_edit_request
    (trace (iteration sample_constants
       {| edit_reply := Ret "ls -a"; danger_reply := Ret (false, "");
          explanation_reply := Ret "lists all files"; choice := "Exit";
          text_input := "";
          markup_error := false; action_cancelled := false;
          text_interrupted := false |}
       {| first_run := false; edit_prompt := "show hidden files";
          shell_command := "ls";
          is_dangerous := Some false; dangerous_consequences := Some "" |})) =
  [ERequest (Edit "ls" "show hidden files")].
Proof.
  apply (editor_asked_iff_revision_pending sample_constants
           {| edit_reply := Ret ""; danger_reply := Ret (false, "");
              explanation_reply := Ret "lists files";
              choice := "Revise query"; text_input := "show hidden files";
              markup_error := false; action_cancelled := false;
              text_interrupted := false |}
           {| edit_reply := Ret "ls -a"; danger_reply := Ret (false, "");
              explanation_reply := Ret "lists all files"; choice := "Exit";
              text_input := "";
              markup_error := false; action_cancelled := false;
              text_interrupted := false |}
           (initial "ls")).
  reflexivity.
Defined.

Lemma pass_starts_with_command K r st st1 :
  result (revise_step r st) = Ret st1 ->
  exists t,
    trace (iteration K r st) =
    trace (revise_step r st) ++ command_block (shell_command st1) ++ t.
Proof.
  intros H1. rewrite iteration_trace, H1.
  destruct (assess_step_starts K r st1) as [t Ht]. rewrite Ht.
  eexists. rewrite <- app_assoc. reflexivity.
Qed.

(** X5.  After "Edit manually" the text the user submitted is the command:
    the prompt offered the rendered command as default, and the next pass
    asks no editor and starts by rendering that text. *)
Theorem manual_edit_is_rendered_verbatim
  (K : constants) (r1 r2 : round) (st st' : locals) :
  choice r1 = "Edit manually" ->
  result (iteration K r1 st) = Ret (Some st') ->
  shell_command st' = text_input r1
  /\ (exists st1,
        result (revise_step r1 st) = Ret st1
        /\ In (EPromptText "Edit command" (shell_command st1) (text_input r1))
              (trace (iteration K r1 st)))
  /\ filter is_edit_request (trace (iteration K r2 st')) = []
  /\ exists t, trace (iteration K r2 st') = command_block (text_input r1) ++ t.
Proof.
  intros Hc H.
  destruct (iteration_next K r1 st st' H) as (F & Ep & st1 & H1 & Sc).
  rewrite Hc in Sc. cbn in Sc.
  assert (Ee : edit_prompt st' = "").
  { rewrite Ep. unfold next_edit_prompt. rewrite Hc. reflexivity. }
  assert (Hrev : revise_step r2 st' = ([], Ret st')).
  { rewrite revise_step_later by assumption. now rewrite Ee. }
  split; [exact Sc|]. split; [|split].
  - exists st1. split; [exact H1|].
    destruct (iteration_completed K r1 st st' H) as (x1 & st2 & Hx & H2 & H3).
    rewrite H1 in Hx. injection Hx as <-.
    destruct (assess_step_completed K r1 st1 st2 H2) as (_ & _ & Hcmd & _ & _).
    rewrite iteration_trace, H1, H2.
    apply in_or_app. right. apply in_or_app. right.
    destruct (choice_step_answered r1 st2 st' H3) as [Ha Hti].
    unfold choice_step, trace. rewrite Ha, Hc, (Hti (or_intror Hc)).
    cbn. rewrite Hcmd. auto.
  - rewrite later_pass_trace by assumption. rewrite Ee. cbn [String.eqb app].
    apply filter_edit_rest.
  - destruct (pass_starts_with_command K r2 st' st') as [t Ht];
      [now rewrite Hrev|].
    rewrite Ht, Hrev, Sc. unfold trace at 1. cbn [fst app]. eauto.
Qed.

Lemma manual_edit_is_rendered_verbatim_witness :
  shell_command
    {| first_run := false; edit_prompt := ""; shell_command := "ls -lah";
       is_dangerous := Some false; dangerous_consequences := Some "" |}
  = "ls -lah".
Proof.
  apply (manual_edit_is_rendered_verbatim sample_constants
           {| edit_reply := Ret ""; danger_reply := Ret (false, "");
              explanation_reply := Ret "lists files";
              choice := "Edit manually"; text_input := "ls -lah";
              markup_error := false; action_cancelled := false;
              text_interrupted := false |}
           {| edit_reply := Ret ""; danger_reply := Ret (false, "");
              explanation_reply := Ret "lists files"; choice := "Exit";
              text_input := "";
              markup_error := false; action_cancelled := false;
              text_interrupted := false |}
           (initial "ls")
           {| first_run := false; edit_prompt := ""; shell_command := "ls -lah";
              is_dangerous := Some false; dangerous_consequences := Some "" |});
    reflexivity.
Defined.

(** X6.  After "Revise query" with a non-empty instruction, the next pass
    sends the rendered command and the instruction to the editor first.
    When the editor returns a command, that command is rendered next; when
    it raises anything but [ShellWhizEditError], the pass ends there with
    that exception and renders nothing. *)
Theorem revision_is_applied_before_render
  (K : constants) (r1 r2 : round) (st st' : locals) :
  choice r1 = "Revise query" ->
  text_input r1 <> "" ->
  result (iteration K r1 st) = Ret (Some st') ->
  (forall c', edit_reply r2 = Ret c' ->
     exists t,
       trace (iteration K r2 st') =
       [ERequest (Edit (shell_command st') (text_input r1));
        EResponse (Edit (shell_command st') (text_input r1))]
       ++ command_block c' ++ t)
  /\ (forall e, edit_reply r2 = Raise e -> e <> ShellWhizEditError ->
        iteration K r2 st' =
        ([ERequest (Edit (shell_command st') (text_input r1));
          EResponse (Edit (shell_command st') (text_input r1))],
         Raise e)).
Proof.
  intros Hc Hne H.
  destruct (iteration_next K r1 st st' H) as (F & Ep & _).
  assert (Ee : edit_prompt st' = text_input r1).
  { rewrite Ep. unfold next_edit_prompt. rewrite Hc. reflexivity. }
  assert (Hrev : revise_step r2 st' =
    ([ERequest (Edit (shell_command st') (text_input r1));
      EResponse (Edit (shell_command st') (text_input r1))],
     match edit_reply r2 with
     | Ret c => Ret (set_shell_command c st')
     | Raise ShellWhizEditError => Ret st'
     | Raise e => Raise e
     end)).
  { rewrite revise_step_later by assumption. rewrite Ee.
    destruct (String.eqb_spec (text_input r1) ""); [contradiction|].
    reflexivity. }
  split.
  - intros c' Hr. rewrite Hr in Hrev.
    destruct (pass_starts_with_command K r2 st' (set_shell_command c' st'))
      as [t Ht]; [now rewrite Hrev|].
    rewrite Ht, Hrev. unfold trace at 1. cbn [fst]. eauto.
  - intros e Hr Hn. rewrite Hr in Hrev.
    unfold iteration. rewrite Hrev.
    destruct e; try reflexivity. contradiction.
Qed.

Lemma revision_is_applied_before_render_witness :
  exists t,
    trace (iteration sample_constants
       {| edit_reply := Ret "ls -a"; danger_reply := Ret (false, "");
          explanation_reply := Ret "lists all files"; choice := "Exit";
          text_input := "";
          markup_error := false; action_cancelled := false;
          text_interrupted := false |}
       {| first_run := false; edit_prompt := "show hidden files";
          shell_command := "ls";
          is_dangerous := Some false; dangerous_consequences := Some "" |}) =
    [ERequest (Edit "ls" "show hidden files");
     EResponse (Edit "ls" "show hidden files")]
    ++ command_block "ls -a" ++ t.
Proof.
  apply (revision_is_applied_before_render sample_constants
           {| edit_reply := Ret ""; danger_reply := Ret (false, "");
              explanation_reply := Ret "lists files";
              choice := "Revise query"; text_input := "show hidden files";
              markup_error := false; action_cancelled := false;
              text_interrupted := false |}
           {| edit_reply := Ret "ls -a"; danger_reply := Ret (false, "");
              explanation_reply := Ret "lists all files"; choice := "Exit";
              text_input := "";
              markup_error := false; action_cancelled := false;
              text_interrupted := false |}
           (initial "ls")
           {| first_run := false; edit_prompt := "show hidden files";
              shell_command := "ls";
              is_dangerous := Some false; dangerous_consequences := Some "" |}
           eq_refl).
  - simpl. discriminate.
  - reflexivity.
  - reflexivity.
Defined.

(** ** Further properties: how a session ends *)

Lemma revise_step_raise r st e :
  result (revise_step r st) = Raise e ->
  edit_reply r = Raise e /\ e <> ShellWhizEditError.
Proof.
  destruct (first_run st) eqn:F.
  - rewrite revise_step_first by assumption. discriminate.
  - rewrite revise_step_later by assumption.
    destruct (edit_prompt st =? "")%string; [discriminate|].
    unfold result; cbn [snd].
    destruct (edit_reply r) as [c|x]; [discriminate|].
    destruct x; try discriminate; intros H; injection H as <-;
      split; (reflexivity || discriminate).
Qed.

Lemma assess_step_raise K r st e :
  result (assess_step K r st) = Raise e ->
  (danger_reply r = Raise e /\ e <> ShellWhizWarningError)
  \/ (e = MarkupError /\ markup_error r = true
      /\ exists c, danger_reply r = Ret (true, c))
  \/ explanation_reply r = Raise e.
Proof.
  rewrite assess_step_eq. unfold after_classifier, warning_fails, verdict.
  destruct (danger_reply r) as [[d c]|x].
  - destruct d.
    + destruct (markup_error r); unfold result; cbn [snd].
      * intros H; injection H as <-. right; left. eauto.
      * destruct (explanation_reply r); [discriminate|].
        intros H; injection H as <-. now right; right.
    + unfold result; cbn [snd].
      destruct (explanation_reply r); [discriminate|].
      intros H; injection H as <-. now right; right.
  - destruct x; unfold result; cbn [snd];
      try (intros H; injection H as <-; left;
           split; (reflexivity || discriminate)).
    destruct (explanation_reply r); [discriminate|].
    intros H; injection H as <-. now right; right.
Qed.

Lemma choice_step_raise r st e :
  result (choice_step r st) = Raise e ->
  (e = TypeError /\ action_cancelled r = true)
  \/ (e = SystemExit None /\ action_cancelled r = false /\ choice r = "Exit")
  \/ (e = KeyboardInterrupt /\ action_cancelled r = false
      /\ text_interrupted r = true
      /\ (choice r = "Revise query" \/ choice r = "Edit manually")).
Proof.
  unfold choice_step, result.
  destruct (action_cancelled r).
  { cbn. intros H; injection H as <-. auto. }
  destruct (String.eqb_spec (choice r) "Exit") as [E|_].
  { cbn. intros H; injection H as <-. auto. }
  destruct (String.eqb_spec (choice r) "Revise query") as [E|_].
  { destruct (text_interrupted r); [|discriminate].
    cbn. intros H; injection H as <-. right; right. auto. }
  destruct (String.eqb_spec (choice r) "Edit manually") as [E|_].
  { destruct (text_interrupted r); [|discriminate].
    cbn. intros H; injection H as <-. right; right. auto. }
  destruct (choice r =? "Run this command")%string; discriminate.
Qed.

Lemma iteration_raise K r st e :
  result (iteration K r st) = Raise e -> raised_in r e.
Proof.
  rewrite iteration_result. unfold raised_in.
  destruct (result (revise_step r st)) as [st1|x] eqn:H1.
  - destruct (result (assess_step K r st1)) as [st2|y] eqn:H2.
    + intros H. destruct (choice_step_raise r st2 e H) as [C|[C|C]]; tauto.
    + intros H; injection H as <-.
      destruct (assess_step_raise K r st1 y H2) as [C|[C|C]]; tauto.
  - intros H; injection H as <-. left.
    now apply (revise_step_raise r st).
Qed.

Lemma loop_raise K rs : forall st e,
  result (loop K rs st) = Raise e -> exists r, In r rs /\ raised_in r e.
Proof.
  induction rs as [|r rs IH]; intros st e; [discriminate|].
  rewrite loop_cons_result.
  destruct (result (iteration K r st)) as [[st'|]|x] eqn:Hi.
  - intros H. destruct (IH st' e H) as (r' & Hin & Hr).
    exists r'. split; [now right | exact Hr].
  - discriminate.
  - intros H; injection H as <-. exists r. split; [now left|].
    now apply (iteration_raise K r st).
Qed.



Lemma exit_free_raised_in r code :
  exit_free r = true -> raised_in r (SystemExit code) -> code = None.
Proof.
  unfold exit_free, raised_in. intros H.
  apply andb_true_iff in H. destruct H as [H H3].
  apply andb_true_iff in H. destruct H as [H1 H2].
  intros [[E _]|[[E _]|[[E _]|[E|[[E _]|[[E _]|[E _]]]]]]];
    try discriminate.
  - rewrite E in H1. discriminate.
  - rewrite E in H2. discriminate.
  - rewrite E in H3. discriminate.
  - now injection E.
Qed.

(** X8.  When no backend call raises [SystemExit] itself, a run that exits
    does so with status 0, [INV_CLI_ARGS_EXIT_CODE], [SW_ERROR_EXIT_CODE] or
    [OPENAI_ERROR_EXIT_CODE], or, when [parse_args] did not accept the
    command line, with the status the parser left with; and a run never ends
    in a traceback for an [openai.error] exception, an interrupt or a
    [SystemExit]. *)
Theorem exit_status_is_known
  (K : constants) (cl : command_line) (s : script) :
  raises_system_exit (translate_reply s) = false ->
  forallb exit_free (rounds s) = true ->
  match snd (run K cl s) with
  | Exit n =>
      In n [0; INV_CLI_ARGS_EXIT_CODE K; SW_ERROR_EXIT_CODE K;
            OPENAI_ERROR_EXIT_CODE K]
      \/ cl = ParserExit n
  | Traceback (OpenAI _) | Traceback KeyboardInterrupt
  | Traceback (SystemExit _) => False
  | _ => True
  end.
Proof.
  intros Ht Hr. destruct cl as [a|status]; [|right; reflexivity].
  assert (Hcode : forall code, snd (main K a s) = Raise (SystemExit code) ->
            In (exit_status code)
               [0; INV_CLI_ARGS_EXIT_CODE K; SW_ERROR_EXIT_CODE K;
                OPENAI_ERROR_EXIT_CODE K]).
  { intros code Hm.
    destruct (main_cases K a s) as [E|[E|[(_ & _ & E)|(_ & _ & E)]]];
      rewrite E in Hm; cbn [snd] in Hm; try discriminate.
    - injection Hm as <-. simpl. auto.
    - rewrite shell_whiz_ask_eq in Hm.
      destruct (translate_reply s) as [c|x]; cbn [snd] in Hm.
      + destruct (loop_raise K (rounds s) (initial c) _ Hm) as (r & Hin & Hri).
        rewrite forallb_forall in Hr.
        rewrite (exit_free_raised_in r code (Hr r Hin) Hri). simpl. auto.
      + destruct x; cbn [snd] in Hm; try discriminate.
        injection Hm as <-. simpl. auto. }
  unfold run.
  destruct (snd (main K a s)) as [[|st]|e] eqn:Hm; cbn [snd].
  - left. simpl. auto.
  - exact I.
  - destruct e; cbn [snd]; try exact I.
    + destruct (first_clause_total c) as (d & msg & Hf & _).
      rewrite Hf. cbn [snd]. left. simpl. auto.
    + left. simpl. auto.
    + left. apply Hcode. reflexivity.
Qed.

Lemma exit_status_is_known_witness :
  In 0 [0; 1; 2; 3]
  \/ Parsed {| sw_command := "ask"; prompt := ["list"; "files"] |} = ParserExit 0.
Proof.
  apply (exit_status_is_known sample_constants
           {| sw_command := "ask"; prompt := ["list"; "files"] |}
           {| translate_reply := Ret "ls -la";
              rounds := [ {| edit_reply := Ret "";
                             danger_reply := Ret (false, "");
                             explanation_reply := Ret "lists files";
                             choice := "Exit"; text_input := "";
                             markup_error := false; action_cancelled := false;
                             text_interrupted := false |} ] |});
    reflexivity.
Defined.

Lemma spinner_app b t1 t2 :
  spinner b (t1 ++ t2) =
  match spinner b t1 with
  | Some b' => spinner b' t2
  | None => None
  end.
Proof.
  revert b. induction t1 as [|e t1 IH]; intros b; [reflexivity|].
  destruct e; cbn [app spinner]; destruct b; auto.
Qed.

Lemma spinner_command_block c : spinner false (command_block c) = Some false.
Proof.
  unfold command_block. cbn [spinner]. rewrite spinner_app.
  induction (PyStr.splitlines c) as [|l ls IH]; simpl; auto.
Qed.

Lemma spinner_revise r st : spinner false (trace (revise_step r st)) = Some false.
Proof.
  destruct (first_run st) eqn:F.
  - rewrite revise_step_first by assumption. reflexivity.
  - rewrite revise_step_later by assumption.
    destruct (edit_prompt st =? "")%string; reflexivity.
Qed.

Lemma spinner_assess K r st :
  spinner false (trace (assess_step K r st)) = Some false.
Proof.
  apply (assess_trace_cases K r st (fun t => spinner false t = Some false)).
  - rewrite spinner_app, spinner_command_block. reflexivity.
  - intros w x [-> | [c ->]] [-> | [e ->]];
      rewrite spinner_app, spinner_command_block; reflexivity.
Qed.

Lemma spinner_choice r st : spinner false (trace (choice_step r st)) = Some false.
Proof. unfold trace. choice_cases r; reflexivity. Qed.

Lemma spinner_iteration K r st :
  spinner false (trace (iteration K r st)) = Some false.
Proof.
  rewrite iteration_trace, spinner_app, spinner_revise.
  destruct (result (revise_step r st)) as [st1|e]; [|reflexivity].
  rewrite spinner_app, spinner_assess.
  destruct (result (assess_step K r st1)) as [st2|e]; [|reflexivity].
  apply spinner_choice.
Qed.

Lemma spinner_loop K rs st : spinner false (trace (loop K rs st)) = Some false.
Proof.
  apply (loop_trace_ind K (fun t => spinner false t = Some false)).
  - reflexivity.
  - intros t1 t2 H1 H2. now rewrite spinner_app, H1.
  - apply spinner_iteration.
Qed.

Lemma spinner_closing x :
  forallb closing_event x = true -> spinner false x = Some false.
Proof.
  induction x as [|e x IH]; [reflexivity|].
  cbn [forallb]. intros H. apply andb_true_iff in H. destruct H as [He Hx].
  destruct e; cbn [closing_event] in He; try discriminate;
    cbn [spinner]; auto.
Qed.

(** X9.  Over a whole run the spinner is used properly whatever the replies
    are: it is started only when it is not running, nothing is printed,
    asked or executed while it runs (only backend traffic happens), it is
    stopped again even when the explanation raises, and it is not running
    when the run ends. *)
Theorem spinner_is_always_stopped (K : constants) (a : args) (s : script) :
  spinner false (fst (run K a s)) = Some false.
Proof.
  destruct (run_trace_tail K a s) as (x & Hx & Hshape).
  rewrite Hx, spinner_app.
  assert (Hm : spinner false (fst (main K a s)) = Some false).
  { destruct (main_cases K a s) as [E|[E|[(_ & _ & E)|(_ & _ & E)]]];
      rewrite E; try reflexivity.
    cbn [fst spinner]. rewrite shell_whiz_ask_eq.
    destruct (translate_reply s) as [c|e]; cbn [fst].
    - cbn [app spinner]. apply spinner_loop.
    - destruct e; reflexivity. }
  rewrite Hm. apply spinner_closing, Hshape.
Qed.

(** X10.  A backend request is made only by [ask] with a prompt that is not
    blank, and only after the configuration check, which is the first event
    of the run; [config] and any other subcommand never contact the
    backend. *)
Theorem backend_only_after_config_check
  (K : constants) (a : args) (s : script) (c : backend_call) :
  In (ERequest c) (fst (run K a s)) ->
  sw_command a = "ask"
  /\ forallb all_space (prompt a) = false
  /\ exists t, fst (run K a s) = EConfig :: t.
Proof.
  intros Hin.
  destruct (run_trace_tail K a s) as (x & Hx & _ & Hreq).
  assert (Hask : sw_command a = "ask"
                 /\ PyStr.strip (PyStr.join " " (prompt a)) <> "").
  { rewrite Hx in Hin. apply in_app_or in Hin. destruct Hin as [Hm|H].
    - destruct (main_cases K a s) as [E|[E|[(_ & _ & E)|(Hask & Hne & E)]]];
        [rewrite E in Hm; cbn [fst] in Hm ..| auto].
      + simpl in Hm. destruct Hm as [H|[]]; discriminate.
      + contradiction.
      + simpl in Hm. destruct Hm as [H|[H|[]]]; discriminate.
    - destruct (main_creates_explanations K a s c (Hreq c H))
        as (Hask & Hne & _). auto. }
  destruct Hask as [Hask Hne].
  split; [exact Hask|]. split.
  - destruct (forallb all_space (prompt a)) eqn:Hb; [|reflexivity].
    exfalso. apply Hne. apply strip_empty_iff. now rewrite all_space_join.
  - rewrite Hx, (main_ask_eq K a s Hask Hne). cbn [fst app]. eauto.
Qed.

Lemma backend_only_after_config_check_witness :
  sw_command {| sw_command := "ask"; prompt := ["list"; "files"] |} = "ask".
Proof.
  apply (backend_only_after_config_check sample_constants
           {| sw_command := "ask"; prompt := ["list"; "files"] |}
           {| translate_reply := Ret "ls -la"; rounds := [] |}
           (Translate "list files")).
  vm_compute. tauto.
Defined.

Lemma splitlines_from_single s : forall cur,
  has_linebreak s = false ->
  PyStr.splitlines_from cur s =
  if ((cur ++ s) =? "")%string then [] else [(cur ++ s)%string].
Proof.
  induction s as [|c s IH]; intros cur H.
  - simpl. now rewrite string_app_nil_r.
  - simpl in H. apply orb_false_iff in H. destruct H as [Hc Hs].
    cbn [PyStr.splitlines_from]. rewrite Hc, (IH _ Hs).
    now rewrite string_app_assoc.
Qed.

Lemma splitlines_from_prefix line : forall cur s,
  has_linebreak line = false ->
  PyStr.splitlines_from cur (line ++ s) =
  PyStr.splitlines_from (cur ++ line) s.
Proof.
  induction line as [|c l IH]; intros cur s H.
  - cbn [append]. now rewrite string_app_nil_r.
  - simpl in H. apply orb_false_iff in H. destruct H as [Hc Hl].
    cbn [append PyStr.splitlines_from]. rewrite Hc, (IH _ _ Hl).
    now rewrite string_app_assoc.
Qed.

(** X11.  [print_command] prints the header, then each line of the command
    behind one space, then an empty line, where the lines are those of
    [str.splitlines]: the empty command has none; a command without line
    boundary is its own single line; a command is cut at its first line
    boundary, which is dropped, a carriage return and the line feed after it
    being one boundary, and the rest is cut in the same way.  So no printed
    line holds a line boundary, and the lines put together are the command
    without its line boundaries. *)
Theorem print_command_prints_every_line (c : string) :
  print_command c =
    (EPrint ByCommand
       (PyStr.nl ++
        " ==================== [bold green]Command[/] ===================="
        ++ PyStr.nl)%string
     :: map (fun line => EPrint ByCommand (" " ++ line)%string)
          (PyStr.splitlines c)
     ++ [EPrint ByCommand ""],
     Ret tt)
  /\ PyStr.splitlines "" = []
  /\ (forall line,
        has_linebreak line = false -> line <> "" ->
        PyStr.splitlines line = [line])
  /\ (forall line b rest,
        has_linebreak line = false -> PyStr.is_linebreak b = true ->
        ~ (b = PyStr.CR /\ exists rest', rest = String PyStr.LF rest') ->
        PyStr.splitlines (line ++ String b rest) = line :: PyStr.splitlines rest)
  /\ (forall line rest,
        has_linebreak line = false ->
        PyStr.splitlines (line ++ String PyStr.CR (String PyStr.LF rest)) =
        line :: PyStr.splitlines rest)
  /\ Forall (fun line => has_linebreak line = false) (PyStr.splitlines c)
  /\ String.concat "" (PyStr.splitlines c) = remove_linebreaks c.
Proof.
  split; [apply print_command_eq|].
  split; [reflexivity|].
  split; [|split; [|split; [|split]]].
  - intros line H N. unfold PyStr.splitlines.
    rewrite (splitlines_from_single line "" H). cbn [append].
    destruct (String.eqb_spec line ""); [contradiction | reflexivity].
  - intros line b rest H Hb Hn. unfold PyStr.splitlines.
    rewrite (splitlines_from_prefix line "" _ H). cbn [append].
    cbn [PyStr.splitlines_from]. rewrite Hb.
    destruct rest as [|c' rest']; [reflexivity|].
    destruct (Ascii.eqb_spec b PyStr.CR) as [Eb|Nb]; [|reflexivity].
    destruct (Ascii.eqb_spec c' PyStr.LF) as [Ec|Nc]; [|reflexivity].
    exfalso. apply Hn. split; [exact Eb|]. exists rest'. now rewrite Ec.
  - intros line rest H. unfold PyStr.splitlines.
    rewrite (splitlines_from_prefix line "" _ H). reflexivity.
  - apply splitlines_no_linebreak.
  - apply splitlines_concat.
Qed.

Lemma print_command_prints_every_line_witness :
  PyStr.splitlines ("ls" ++ String PyStr.LF "rm -rf /") = ["ls"; "rm -rf /"].
Proof.
  apply (print_command_prints_every_line "").
  - reflexivity.
  - reflexivity.
  - intros [E _]. discriminate E.
Defined.






(** X13.  Across a completed pass the command changes in two ways only: the
    user's text after "Edit manually", or else the editor's reply when the
    editor was asked (not the first pass, instruction not empty) and
    returned.  The classifier, the explainer and a failed edit leave it as
    it was. *)
Theorem command_changes_only_by_edit
  (K : constants) (r : round) (st st' : locals) :
  result (iteration K r st) = Ret (Some st') ->
  shell_command st' =
    if (choice r =? "Edit manually")%string then text_input r
    else if first_run st || (edit_prompt st =? "")%string then shell_command st
    else match edit_reply r with
         | Ret c => c
         | Raise _ => shell_command st
         end.
Proof.
  intros H. destruct (iteration_next K r st st' H) as (_ & _ & st1 & H1 & Sc).
  rewrite Sc.
  destruct (choice r =? "Edit manually")%string; [reflexivity|].
  destruct (first_run st) eqn:F.
  - rewrite revise_step_first in H1 by assumption.
    unfold result in H1; cbn [snd] in H1. injection H1 as <-. reflexivity.
  - rewrite revise_step_later in H1 by assumption. cbn [orb].
    destruct (edit_prompt st =? "")%string; unfold result in H1; cbn [snd] in H1.
    + injection H1 as <-. reflexivity.
    + destruct (edit_reply r) as [c|e].
      * injection H1 as <-. reflexivity.
      * destruct e; try discriminate. injection H1 as <-. reflexivity.
Qed.

Lemma command_changes_only_by_edit_witness :
  shell_command
    {| first_run := false; edit_prompt := ""; shell_command := "ls";
       is_dangerous := Some true; dangerous_consequences := Some "none" |}
  = "ls".
Proof.
  apply (command_changes_only_by_edit sample_constants
           {| edit_reply := Ret "rm -rf /"; danger_reply := Ret (true, "none");
              explanation_reply := Ret "lists files";
              choice := "Revise query"; text_input := "";
              markup_error := false; action_cancelled := false;
              text_interrupted := false |}
           (initial "ls")
           {| first_run := false; edit_prompt := ""; shell_command := "ls";
              is_dangerous := Some true; dangerous_consequences := Some "none" |}).
  reflexivity.
Defined.

(** ** Further properties: what a pass shows *)

Lemma filter_shown_command_block c :
  filter is_shown (command_block c) = command_block c.
Proof.
  unfold command_block. cbn [filter is_shown]. f_equal.
  induction (PyStr.splitlines c) as [|l ls IH]; [reflexivity|].
  cbn [map app filter is_shown]. now rewrite IH.
Qed.

Lemma filter_shown_revise r st :
  filter is_shown (trace (revise_step r st)) = [].
Proof.
  destruct (first_run st) eqn:F.
  - rewrite revise_step_first by assumption. reflexivity.
  - rewrite revise_step_later by assumption.
    destruct (edit_prompt st =? "")%string; reflexivity.
Qed.

Lemma filter_shown_choice r st :
  filter is_shown (trace (choice_step r st)) = [action_prompt r].
Proof. unfold trace, action_prompt. choice_cases r; reflexivity. Qed.

(** X14.  What a pass shows, in the order it shows it, whatever the replies
    are: nothing when the edit step raised; else the block of the current
    command; then, unless the classifier raised past its [except] clause,
    the warning with the classifier's text exactly when the verdict is
    dangerous (and nothing more when [rich] rejects that markup); then,
    unless the explanation raised, the block of the explanation that was
    awaited and after it the action prompt. *)
Theorem pass_shows_command_warning_explanation_prompt
  (K : constants) (r : round) (st : locals) :
  filter is_shown (trace (iteration K r st)) =
  match result (revise_step r st) with
  | Raise _ => []
  | Ret st1 =>
      let rest :=
        match explanation_reply r with
        | Ret e => explanation_block e ++ [action_prompt r]
        | Raise _ => []
        end in
      command_block (shell_command st1)
      ++ match danger_reply r with
         | Ret (true, c) =>
             if markup_error r then [] else warning_block c ++ rest
         | Ret (false, _) | Raise ShellWhizWarningError => rest
         | Raise _ => []
         end
  end.
Proof.
  rewrite iteration_trace, filter_app, filter_shown_revise. cbn [app].
  destruct (result (revise_step r st)) as [st1|x]; [|reflexivity].
  cbv zeta. rewrite filter_app.
  rewrite assess_step_eq.
  unfold after_classifier, warning_fails, warning_of, verdict.
  destruct (danger_reply r) as [[d c]|x].
  - destruct d.
    + destruct (markup_error r); unfold trace at 1, result; cbn [fst snd].
      * rewrite filter_app, filter_shown_command_block. cbn.
        now rewrite !app_nil_r.
      * rewrite !filter_app, filter_shown_command_block.
        destruct (explanation_reply r) as [e|y]; cbn [filter is_shown app];
          [rewrite filter_shown_choice|]; rewrite <- ?app_assoc;
          cbn [app]; rewrite ?app_nil_r; reflexivity.
    + unfold trace at 1, result; cbn [fst snd].
      rewrite !filter_app, filter_shown_command_block.
      destruct (explanation_reply r) as [e|y]; cbn [filter is_shown app];
        [rewrite filter_shown_choice|]; rewrite <- ?app_assoc;
        cbn [app]; rewrite ?app_nil_r; reflexivity.
  - destruct x; unfold trace at 1, result; cbn [fst snd];
      rewrite ?filter_app, ?filter_shown_command_block;
      try (cbn; now rewrite !app_nil_r).
    destruct (explanation_reply r) as [e|y]; cbn [filter is_shown app];
      [rewrite filter_shown_choice|]; rewrite <- ?app_assoc;
      cbn [app]; rewrite ?app_nil_r; reflexivity.
Qed.
